(** * starlake-orchestration, [ai.starlake.common]: cron frequency helpers

    Shallow embedding of [cron_start_time], [sl_schedule],
    [get_cron_frequency] and [sort_crons_by_frequency] from
    [ai/starlake/common/__init__.py], and the properties of the
    cron-frequency analysis stated over it.

    Conventions of the embedding.
    - A [datetime] is a [Z]: the number of microseconds since the epoch of the
      naive clock, from [datetime_min] (0001-01-01) to [datetime_max]
      (9999-12-31 23:59:59.999999).  [timedelta] values are microsecond
      counts as well; adding one to a [datetime] raises [OverflowError] when
      the sum leaves the range.
    - The [croniter] package is not part of the module; it is an interface
      ([CronEngine]) the functions are parameterised over, with its contract
      stated separately ([EngineLaws]).  [RefEngine] is a reference engine
      for numeric five-field expressions that instantiates the interface.
    - Python exceptions are the [Raise] outcome.  The [while True] loop of
      [get_cron_frequency] takes a fuel argument; running out of fuel is the
      distinct outcome [OutOfFuel], never confused with a result.  *)

From Stdlib Require Import ZArith List String Ascii Bool Lia.
From Stdlib Require Import Permutation Sorted.
Import ListNotations.

Local Open Scope string_scope.
Local Open Scope Z_scope.

(* ================================================================== *)
(** * Outcomes of a call *)

Inductive exn : Type :=
| CroniterBadCronError            (* croniter: the expression does not parse *)
| CroniterBadDateError            (* croniter: no matching date was found *)
| ValueError (msg : string)
| OverflowError.                  (* datetime: date value out of range *)

Inductive outcome (A : Type) : Type :=
| Return (a : A)
| Raise (e : exn)
| OutOfFuel.

Arguments Return {A} a.
Arguments Raise {A} e.
Arguments OutOfFuel {A}.

Definition bind {A B : Type} (m : outcome A) (k : A -> outcome B) : outcome B :=
  match m with
  | Return a => k a
  | Raise e => Raise e
  | OutOfFuel => OutOfFuel
  end.

Notation "x <- m ;; k" := (bind m (fun x => k))
  (at level 61, m at next level, right associativity).

(* ================================================================== *)
(** * Time *)

Definition datetime := Z.

Definition second_us : Z := 1000000.
Definition minute_us : Z := 60 * second_us.
Definition day_us : Z := 86400 * second_us.

(** [timedelta(days=d, weeks=w)] *)
Definition timedelta (days weeks : Z) : Z := (days + 7 * weeks) * day_us.

(** [datetime.min] and [datetime.max]: 0001-01-01 00:00:00 and
    9999-12-31 23:59:59.999999. *)
Definition datetime_min : datetime := - 62135596800 * second_us.
Definition datetime_max : datetime := 253402300800 * second_us - 1.

(** [t + d] for a [datetime] and a [timedelta]: a sum out of the range of
    [datetime] raises [OverflowError]. *)
Definition datetime_add (t : datetime) (d : Z) : outcome datetime :=
  if (datetime_min <=? t + d) && (t + d <=? datetime_max)
  then Return (t + d) else Raise OverflowError.

(* ================================================================== *)
(** * The cron engine interface (the [croniter] package) *)

Class CronEngine : Type := {
  (** the expanded form of a parsed expression *)
  schedule : Type;
  (** parsing done by the constructor [croniter(expr, start)];
      [None] is [CroniterBadCronError] *)
  expand : string -> option schedule;
  (** the instants at which a schedule fires *)
  fires : schedule -> datetime -> bool;
  (** next occurrence strictly after the cursor; [None] is
      [CroniterBadDateError] *)
  next_occurrence : schedule -> datetime -> option datetime;
  (** previous occurrence strictly before the cursor *)
  prev_occurrence : schedule -> datetime -> option datetime
}.

(** Contract of an engine for five-field expressions: occurrences lie on
    whole minutes, and [next_occurrence] returns the earliest occurrence
    strictly after the cursor. *)
Class EngineLaws (E : CronEngine) : Prop := {
  next_later : forall s t u, next_occurrence s t = Some u -> t < u;
  next_aligned : forall s t u, next_occurrence s t = Some u -> u mod minute_us = 0;
  next_fires : forall s t u, next_occurrence s t = Some u -> fires s u = true;
  next_least : forall s t u, next_occurrence s t = Some u ->
                 forall v, t < v < u -> fires s v = false
}.

(** A schedule on which iteration never fails. *)
Definition always_next {E : CronEngine} (s : schedule) : Prop :=
  forall t, exists u, next_occurrence s t = Some u.

(** An expression the engine parses and can iterate from any instant. *)
Definition valid_cron {E : CronEngine} (expr : string) : Prop :=
  exists s, expand expr = Some s /\ always_next s.

(* ================================================================== *)
(** * The module *)

Section Common.

Context {E : CronEngine}.

(** [datetime.strftime] *)
Variable strftime : datetime -> string -> string.

(** The iterator object built by [croniter(expr, start_time)]: the expanded
    expression and the cursor [cur], which [get_next] and [get_prev] move. *)
Record croniter : Type := { expanded : schedule; cur : datetime }.

Definition croniter_new (expr : string) (start_time : datetime) : outcome croniter :=
  match expand expr with
  | Some s => Return {| expanded := s; cur := start_time |}
  | None => Raise CroniterBadCronError
  end.

Definition get_next (it : croniter) : outcome (datetime * croniter) :=
  match next_occurrence (expanded it) (cur it) with
  | Some u => Return (u, {| expanded := expanded it; cur := u |})
  | None => Raise CroniterBadDateError
  end.

Definition get_prev (it : croniter) : outcome (datetime * croniter) :=
  match prev_occurrence (expanded it) (cur it) with
  | Some u => Return (u, {| expanded := expanded it; cur := u |})
  | None => Raise CroniterBadDateError
  end.

(** [cron_start_time()]: the clock reading, through a timestamp and back. *)
Definition cron_start_time (clock : datetime) : datetime := clock.

Definition sl_schedule_format : string := "%Y%m%dT%H%M".

(** State left behind by executing the module body: the default of the
    [start_time] parameter of [sl_schedule] is the value of
    [cron_start_time()] when the [def] statement ran. *)
Record module_state : Type := { sl_schedule_default_start_time : datetime }.

Definition import_module (clock : datetime) : module_state :=
  {| sl_schedule_default_start_time := cron_start_time clock |}.

(** The [start_time] a call of [sl_schedule] works with. [clock] is the time
    of the call; an omitted argument is [None]. *)
Definition sl_schedule_start_time (m : module_state) (clock : datetime)
    (start_time : option datetime) : datetime :=
  match start_time with
  | Some t => t
  | None => sl_schedule_default_start_time m
  end.

Definition sl_schedule (m : module_state) (clock : datetime) (cron : string)
    (start_time : option datetime) (format : option string) : outcome string :=
  let start_time := sl_schedule_start_time m clock start_time in
  let format := match format with Some f => f | None => sl_schedule_format end in
  it <- croniter_new cron start_time ;;
  r <- get_prev it ;;
  Return (strftime (fst r) format).

(** A run of the [while True] loop: the outcome, and the result of every
    [iter.get_next(datetime)] call made, in order ([None] for a call that
    raised). *)
Fixpoint count_loop (fuel : nat) (it : croniter) (end_time : datetime)
    (frequency : Z) : outcome Z * list (option datetime) :=
  match fuel with
  | O => (OutOfFuel, [])
  | S fuel' =>
      match get_next it with
      | Return (next_run, it') =>
          if next_run <? end_time then
            let (r, calls) := count_loop fuel' it' end_time (frequency + 1) in
            (r, Some next_run :: calls)
          else (Return frequency, [Some next_run])
      | Raise e => (Raise e, [None])
      | OutOfFuel => (OutOfFuel, [])
      end
  end.

Definition get_cron_frequency_run (fuel : nat) (cron_expression : string)
    (start_time : datetime) (period : string)
  : outcome Z * list (option datetime) :=
  match croniter_new cron_expression start_time with
  | Return iter =>
      let end_time := start_time in
      (* the loop, once [end_time += timedelta(...)] has not raised *)
      let counting (end_time : outcome datetime) :=
        match end_time with
        | Return end_time => count_loop fuel iter end_time 0
        | Raise e => (Raise e, [])
        | OutOfFuel => (OutOfFuel, [])
        end in
      if (period =? "day")%string then
        counting (datetime_add end_time (timedelta 1 0))
      else if (period =? "week")%string then
        counting (datetime_add end_time (timedelta 0 1))
      else if (period =? "month")%string then
        counting (datetime_add end_time (timedelta 30 0))
      else
        (Raise (ValueError "Unsupported period. Choose from 'day', 'week', 'month'."), [])
  | Raise e => (Raise e, [])
  | OutOfFuel => (OutOfFuel, [])
  end.

Definition get_cron_frequency (fuel : nat) (cron_expression : string)
    (start_time : datetime) (period : string) : outcome Z :=
  fst (get_cron_frequency_run fuel cron_expression start_time period).

(** The list comprehension
    [[(expr, get_cron_frequency(expr, start_time, period)) for expr in ...]]:
    left to right, the first exception ends it. *)
Fixpoint frequencies (fuel : nat) (start_time : datetime) (period : string)
    (cron_expressions : list string) : outcome (list (string * Z)) :=
  match cron_expressions with
  | [] => Return []
  | expr :: rest =>
      n <- get_cron_frequency fuel expr start_time period ;;
      l <- frequencies fuel start_time period rest ;;
      Return ((expr, n) :: l)
  end.

(** [sorted(l, key=key, reverse=True)]: Python's sort is stable, and with
    [reverse=True] elements with equal keys keep their original order.  An
    element moves right only past elements with a strictly larger key. *)
Fixpoint insert_desc {A : Type} (key : A -> Z) (x : A) (l : list A) : list A :=
  match l with
  | [] => [x]
  | y :: l' => if key x <? key y then y :: insert_desc key x l' else x :: l
  end.

Fixpoint sorted_reverse {A : Type} (key : A -> Z) (l : list A) : list A :=
  match l with
  | [] => []
  | x :: l' => insert_desc key x (sorted_reverse key l')
  end.

(** [clock] is the time at which the call reads [cron_start_time()]. *)
Definition sort_crons_by_frequency (fuel : nat) (clock : datetime)
    (cron_expressions : list string) (period : string)
  : outcome (list (string * Z)) :=
  let start_time := cron_start_time clock in
  frequencies <- frequencies fuel start_time period cron_expressions ;;
  let sorted_expressions := sorted_reverse snd frequencies in
  Return sorted_expressions.

End Common.

Arguments croniter {E}.
Arguments expanded {E} _.
Arguments cur {E} _.

(* ================================================================== *)
(** * A reference cron engine *)

(** Modelled from the spec: the cron-expression iteration engine (the
    [croniter] package) is an external collaborator and not in the module.
    This engine reads five whitespace-separated numeric fields (minute, hour,
    day of month, month, day of week), each a comma-separated list of
    [*], [a], [a-b], optionally followed by [/n]; anything else is rejected.
    An occurrence is a whole minute whose calendar fields match; when both
    day fields are restricted, either may match.  The search for the next or
    previous occurrence looks [2 ^ horizon] minutes ahead or back. *)
Module RefEngine.

Fixpoint split_on (sep : ascii) (s : string) : list string :=
  match s with
  | EmptyString => [EmptyString]
  | String c r =>
      if Ascii.eqb c sep then EmptyString :: split_on sep r
      else match split_on sep r with
           | [] => [String c EmptyString]
           | w :: ws => String c w :: ws
           end
  end.

Definition nonempty (s : string) : bool :=
  match s with EmptyString => false | _ => true end.

Definition words (s : string) : list string :=
  filter nonempty (split_on " " s).

Definition is_digit (c : ascii) : bool :=
  let n := nat_of_ascii c in (48 <=? n)%nat && (n <=? 57)%nat.

Fixpoint digits_value (acc : Z) (s : string) : option Z :=
  match s with
  | EmptyString => Some acc
  | String c r =>
      if is_digit c
      then digits_value (10 * acc + Z.of_nat (nat_of_ascii c - 48)) r
      else None
  end.

Definition parse_number (s : string) : option Z :=
  match s with
  | EmptyString => None
  | _ => digits_value 0 s
  end.

(** One list element of a field: the values [first, first + step, ...] up to
    [last]. *)
Record item : Type := { first : Z; last : Z; step : Z }.

Definition field := list item.

(** [open] tells that a step follows, in which case a lone number [a] stands
    for [a-hi]. *)
Definition parse_range (lo hi : Z) (open : bool) (s : string) : option (Z * Z) :=
  if (s =? "*")%string then Some (lo, hi)
  else match split_on "-" s with
       | [a] =>
           match parse_number a with
           | Some a =>
               if (lo <=? a) && (a <=? hi)
               then Some (a, if open then hi else a) else None
           | None => None
           end
       | [a; b] =>
           match parse_number a, parse_number b with
           | Some a, Some b =>
               if (lo <=? a) && (a <=? b) && (b <=? hi) then Some (a, b) else None
           | _, _ => None
           end
       | _ => None
       end.

Definition parse_item (lo hi : Z) (s : string) : option item :=
  match split_on "/" s with
  | [base] =>
      match parse_range lo hi false base with
      | Some (a, b) => Some {| first := a; last := b; step := 1 |}
      | None => None
      end
  | [base; st] =>
      match parse_range lo hi true base, parse_number st with
      | Some (a, b), Some n =>
          if 0 <? n then Some {| first := a; last := b; step := n |} else None
      | _, _ => None
      end
  | _ => None
  end.

Fixpoint parse_items (lo hi : Z) (l : list string) : option field :=
  match l with
  | [] => Some []
  | s :: r =>
      match parse_item lo hi s, parse_items lo hi r with
      | Some i, Some f => Some (i :: f)
      | _, _ => None
      end
  end.

Definition parse_field (lo hi : Z) (s : string) : option field :=
  parse_items lo hi (split_on "," s).

Record cron : Type := {
  minutes : field; hours : field; days : field; months : field; weekdays : field
}.

Definition parse (expr : string) : option cron :=
  match words expr with
  | [mi; h; d; mo; wd] =>
      match parse_field 0 59 mi, parse_field 0 23 h, parse_field 1 31 d,
            parse_field 1 12 mo, parse_field 0 7 wd with
      | Some mi, Some h, Some d, Some mo, Some wd =>
          Some {| minutes := mi; hours := h; days := d; months := mo; weekdays := wd |}
      | _, _, _, _, _ => None
      end
  | _ => None
  end.

Definition item_match (i : item) (v : Z) : bool :=
  (first i <=? v) && (v <=? last i) && ((v - first i) mod step i =? 0).

Definition field_match (f : field) (v : Z) : bool :=
  existsb (fun i => item_match i v) f.

(** Day of week: 0 is Sunday, and so is 7. *)
Definition weekday_match (f : field) (v : Z) : bool :=
  field_match f v || ((v =? 0) && field_match f 7).

(** [all_from P n a]: [P] holds at [a], [a + 1], ..., [a + n - 1]. *)
Fixpoint all_from (P : Z -> bool) (n : nat) (a : Z) : bool :=
  match n with
  | O => true
  | S n' => P a && all_from P n' (a + 1)
  end.

(** A field is restricted when it leaves some value out. *)
Definition days_restricted (f : field) : bool :=
  negb (all_from (field_match f) 31 1).

Definition weekdays_restricted (f : field) : bool :=
  negb (all_from (weekday_match f) 7 0).

(** Proleptic Gregorian date of a day of the 400-year era, counted from
    March 1st: (year of era, month, day). *)
Definition civil_of_doe (doe : Z) : Z * Z * Z :=
  let yoe := (doe - doe / 1460 + doe / 36524 - doe / 146096) / 365 in
  let doy := doe - (365 * yoe + yoe / 4 - yoe / 100) in
  let mp := (5 * doy + 2) / 153 in
  let d := doy - (153 * mp + 2) / 5 + 1 in
  let m := if mp <? 10 then mp + 3 else mp - 9 in
  (yoe, m, d).

(** Date of a day counted from 1970-01-01: (year, month, day). *)
Definition civil_from_days (dn : Z) : Z * Z * Z :=
  let z := dn + 719468 in
  let era := z / 146097 in
  let '(yoe, m, d) := civil_of_doe (z mod 146097) in
  let y := yoe + era * 400 in
  (if m <=? 2 then y + 1 else y, m, d).

(** 1970-01-01 was a Thursday. *)
Definition weekday_of_days (dn : Z) : Z := (dn + 4) mod 7.

(** Does the schedule fire at minute number [m] (minutes since the epoch)? *)
Definition fires_minute (s : cron) (m : Z) : bool :=
  if field_match (minutes s) (m mod 60) then
    if field_match (hours s) ((m / 60) mod 24) then
      let dn := m / 1440 in
      let '(_, mo, d) := civil_from_days dn in
      if field_match (months s) mo then
        if days_restricted (days s) && weekdays_restricted (weekdays s)
        then field_match (days s) d || weekday_match (weekdays s) (weekday_of_days dn)
        else field_match (days s) d && weekday_match (weekdays s) (weekday_of_days dn)
      else false
    else false
  else false.

Definition fires_at (s : cron) (t : datetime) : bool :=
  (t mod minute_us =? 0) && fires_minute s (t / minute_us).

(** Least [x] in [[m, m + 2^k)] with [P x]. *)
Fixpoint first_from (P : Z -> bool) (k : nat) (m : Z) : option Z :=
  match k with
  | O => if P m then Some m else None
  | S k' =>
      match first_from P k' m with
      | Some x => Some x
      | None => first_from P k' (m + 2 ^ Z.of_nat k')
      end
  end.

(** Greatest [x] in [(m - 2^k, m]] with [P x]. *)
Fixpoint last_upto (P : Z -> bool) (k : nat) (m : Z) : option Z :=
  match k with
  | O => if P m then Some m else None
  | S k' =>
      match last_upto P k' m with
      | Some x => Some x
      | None => last_upto P k' (m - 2 ^ Z.of_nat k')
      end
  end.

(** About 63 years of minutes. *)
Definition horizon : nat := 25.

Definition next (s : cron) (t : datetime) : option datetime :=
  option_map (fun m => m * minute_us)
             (first_from (fires_minute s) horizon (t / minute_us + 1)).

Definition prev (s : cron) (t : datetime) : option datetime :=
  option_map (fun m => m * minute_us)
             (last_upto (fires_minute s) horizon ((t - 1) / minute_us)).

#[export] Instance engine : CronEngine := {|
  schedule := cron;
  expand := parse;
  fires := fires_at;
  next_occurrence := next;
  prev_occurrence := prev
|}.

Definition two (n : Z) : string :=
  let d v := String (ascii_of_nat (48 + Z.to_nat v)) EmptyString in
  (d ((n / 10) mod 10) ++ d (n mod 10))%string.

Definition four (n : Z) : string := (two (n / 100) ++ two n)%string.

(** [datetime.strftime] for the directives [%Y %m %d %H %M]; other
    characters are copied. *)
Fixpoint strftime (t : datetime) (format : string) : string :=
  match format with
  | String "%" (String c r) =>
      let m := t / minute_us in
      let '(y, mo, d) := civil_from_days (m / 1440) in
      let piece :=
        if Ascii.eqb c "Y" then four y
        else if Ascii.eqb c "m" then two mo
        else if Ascii.eqb c "d" then two d
        else if Ascii.eqb c "H" then two ((m / 60) mod 24)
        else if Ascii.eqb c "M" then two (m mod 60)
        else String "%" (String c EmptyString) in
      (piece ++ strftime t r)%string
  | String c r => String c (strftime t r)
  | EmptyString => EmptyString
  end.

(** Is a (year, month, day) triple a possible date? *)
Definition date_in_range (ymd : Z * Z * Z) : bool :=
  let '(_, m, d) := ymd in (1 <=? m) && (m <=? 12) && (1 <=? d) && (d <=? 31).

(** The field [*] over [[lo, hi]]. *)
Definition star (lo hi : Z) : field := [{| first := lo; last := hi; step := 1 |}].

(** The schedules of the expressions used below. *)
Definition every_minute : cron :=
  {| minutes := star 0 59; hours := star 0 23; days := star 1 31;
     months := star 1 12; weekdays := star 0 7 |}.

Definition hourly : cron :=
  {| minutes := [{| first := 0; last := 0; step := 1 |}]; hours := star 0 23;
     days := star 1 31; months := star 1 12; weekdays := star 0 7 |}.

Definition daily : cron :=
  {| minutes := [{| first := 0; last := 0; step := 1 |}];
     hours := [{| first := 0; last := 0; step := 1 |}];
     days := star 1 31; months := star 1 12; weekdays := star 0 7 |}.

End RefEngine.

(* ================================================================== *)
(** * What the spec calls the window *)

(** The spec's [windowLength]: 24h, 7 x 24h, 30 x 24h. *)
Definition hour_us : Z := 3600 * second_us.

Definition windowLength (period : string) : option Z :=
  if (period =? "day")%string then Some (24 * hour_us)
  else if (period =? "week")%string then Some (7 * 24 * hour_us)
  else if (period =? "month")%string then Some (30 * 24 * hour_us)
  else None.

(** Whole minutes in the window. *)
Definition window_minutes (period : string) : Z :=
  if (period =? "day")%string then 1440
  else if (period =? "week")%string then 10080
  else if (period =? "month")%string then 43200
  else 0.

Definition valid_period (period : string) : Prop :=
  period = "day" \/ period = "week" \/ period = "month".

(** The end of the window from [start_time] is a [datetime]. *)
Definition window_fits (start_time : datetime) (period : string) : Prop :=
  datetime_min <= start_time + window_minutes period * minute_us <= datetime_max.

(** Iteration does not fail from a cursor in [[a, b)]. *)
Definition iterable_between {E : CronEngine} (s : schedule) (a b : datetime) : Prop :=
  forall t, a <= t < b -> exists u, next_occurrence s t = Some u.

(** Number of whole minutes in [(c, e)], the bound on the counted steps of
    the loop started at cursor [c]. *)
Definition minutes_between (c e : Z) : Z := (e - 1) / minute_us - c / minute_us.

(* ================================================================== *)
(** * Vocabulary of the statements *)

(** The spec's names for the two errors. *)

Definition InvalidCronExpressionError : exn := CroniterBadCronError.

Definition UnsupportedPeriodError : exn :=
  ValueError "Unsupported period. Choose from 'day', 'week', 'month'.".

(** The occurrences among the results of the [get_next] calls of a run. *)
Definition returned (calls : list (option datetime)) : list datetime :=
  flat_map (fun o => match o with Some u => [u] | None => [] end) calls.

(** Counts that never increase from first to last. *)
Definition non_increasing (l : list Z) : Prop :=
  StronglySorted (fun a b => a >= b) l.

(** Inputs of the worked examples: an input with ties, the output the
    reference engine gives for it over a day from instant 17, and an
    instant of 2025-11-04. *)
Definition tied_input : list string :=
  ["0 0 * * *"; "30 * * * *"; "* * * * *"; "0 * * * *"; "15 12 * * *"].

Definition tied_output : list (string * Z) :=
  [("* * * * *", 1440); ("30 * * * *", 24); ("0 * * * *", 24);
   ("0 0 * * *", 1); ("15 12 * * *", 1)].

(** 2025-11-04 16:00:00.000017 *)
Definition scenario_start : datetime := 1762272000 * second_us + 17.

(** Two start times late in the last year of [datetime]:
    9999-12-05 00:00:30, less than 30 days before [datetime_max], and
    9999-12-31 12:00:00.000017, less than a day before it. *)
Definition late_december_5th : datetime := 253399968030 * second_us.
Definition late_december_31st : datetime := 253402257600 * second_us + 17.

(* ================================================================== *)
(** * The text helpers of the module *)

(** A Python [str] as the helpers see it: a sequence of code points. *)
Definition pystr : Type := list N.

Definition ord (c : ascii) : N := N_of_ascii c.

Fixpoint str (s : string) : pystr :=
  match s with
  | EmptyString => []
  | String c r => ord c :: str r
  end.

(** [re.sub("[cls]", repl, s)] for a class [cls] of single characters:
    every character of the class is replaced. *)
Definition re_sub_class (cls : N -> bool) (repl : pystr) (s : pystr) : pystr :=
  flat_map (fun c => if cls c then repl else [c]) s.

(** [re.sub("[cls]+", repl, s)]: every maximal run of characters of the
    class is replaced once.  [in_run] tells that the character before was
    of the class, so that the run it belongs to is already replaced. *)
Fixpoint re_sub_class_plus (cls : N -> bool) (repl : pystr) (in_run : bool)
    (s : pystr) : pystr :=
  match s with
  | [] => []
  | c :: r =>
      if cls c then
        if in_run then re_sub_class_plus cls repl true r
        else (repl ++ re_sub_class_plus cls repl true r)%list
      else c :: re_sub_class_plus cls repl false r
  end.

(** [s.replace(old, new)] for a one-character [old]. *)
Definition replace_char (old : N) (new : pystr) (s : pystr) : pystr :=
  flat_map (fun c => if (c =? old)%N then new else [c]) s.

(** The class [[\x00-\x7F]]. *)
Definition is_ascii (c : N) : bool := (c <=? 127)%N.

Definition keep_ascii_only (text : pystr) : pystr :=
  re_sub_class_plus (fun c => negb (is_ascii c)) (str "_") false text.

(** Is the scan of [keep_ascii_only] inside a run after reading [a]? *)
Definition in_run_after (in_run : bool) (a : pystr) : bool :=
  fold_left (fun _ c => negb (is_ascii c)) a in_run.

(** The class [[a-zA-Z0-9\-_]]. *)
Definition id_char (c : N) : bool :=
  ((ord "a" <=? c) && (c <=? ord "z"))%N
  || ((ord "A" <=? c) && (c <=? ord "Z"))%N
  || ((ord "0" <=? c) && (c <=? ord "9"))%N
  || (c =? ord "-")%N || (c =? ord "_")%N.

Definition sanitize_id (id : pystr) : pystr :=
  keep_ascii_only
    (re_sub_class (fun c => negb (id_char c)) (str "_")
       (replace_char (ord "$") (str "S") id)).

(** What [sanitize_id] makes of one character. *)
Definition sanitize_char (c : N) : N :=
  if (c =? ord "$")%N then ord "S" else if id_char c then c else ord "_".

(** ['sep'.join(l)] *)
Fixpoint join (sep : pystr) (l : list pystr) : pystr :=
  match l with
  | [] => []
  | [x] => x
  | x :: r => (x ++ sep ++ join sep r)%list
  end.

Section Query.

(** [urllib.parse.quote]; it raises on a string it cannot encode. *)
Variable quote : pystr -> outcome pystr.

(** The generator [f'{quote(k)}={quote(v)}' for (k, v) in parameters.items()],
    drained by [list]: items in insertion order, key quoted before value,
    the first exception ends it. *)
Fixpoint quoted_items (items : list (pystr * pystr)) : outcome (list pystr) :=
  match items with
  | [] => Return []
  | (k, v) :: rest =>
      qk <- quote k ;;
      qv <- quote v ;;
      l <- quoted_items rest ;;
      Return ((qk ++ str "=" ++ qv)%list :: l)
  end.

(** An item the generator can format: key and value are both quoted. *)
Definition quotable (kv : pystr * pystr) : Prop :=
  (exists q, quote (fst kv) = Return q) /\ (exists q, quote (snd kv) = Return q).

(** A [dict] of strings is the list of its items in insertion order; [None]
    is the omitted argument. *)
Definition asQueryParameters (parameters : option (list (pystr * pystr)))
  : outcome pystr :=
  let parameters := match parameters with None => [] | Some d => d end in
  if (0 <? List.length parameters)%nat then
    l <- quoted_items parameters ;;
    Return (str "?" ++ join (str "&") l)%list
  else Return [].

End Query.

(** Reading a query string back: [s.split(sep)], the cut of a string at
    its first [sep], and the pairs of a query string. *)
Fixpoint split_at (sep : N) (s : pystr) : list pystr :=
  match s with
  | [] => [[]]
  | c :: r =>
      if (c =? sep)%N then [] :: split_at sep r
      else match split_at sep r with
           | [] => [[c]]
           | w :: ws => (c :: w) :: ws
           end
  end.

Fixpoint cut_at (sep : N) (s : pystr) : pystr * pystr :=
  match s with
  | [] => ([], [])
  | c :: r =>
      if (c =? sep)%N then ([], r)
      else let (a, b) := cut_at sep r in (c :: a, b)
  end.

Definition read_query (s : pystr) : list (pystr * pystr) :=
  match s with
  | [] => []
  | _ :: r => map (cut_at (ord "=")) (split_at (ord "&") r)
  end.

(** Modelled from the spec: the URL-encoding helper ([urllib.parse.quote]) is
    an external collaborator and not in the module.  This one encodes the
    string as UTF-8, which fails on surrogates and beyond U+10FFFF, keeps
    letters, digits and [_.-~/], and writes every other byte as [%XX]. *)
Module RefQuote.

Definition utf8 (c : N) : option (list N) :=
  (if c <? 128 then Some [c]
   else if c <? 2048 then Some [192 + c / 64; 128 + c mod 64]
   else if (55296 <=? c) && (c <=? 57343) then None
   else if c <? 65536 then
     Some [224 + c / 4096; 128 + (c / 64) mod 64; 128 + c mod 64]
   else if c <? 1114112 then
     Some [240 + c / 262144; 128 + (c / 4096) mod 64;
           128 + (c / 64) mod 64; 128 + c mod 64]
   else None)%N.

Definition unreserved (b : N) : bool :=
  ((ord "a" <=? b) && (b <=? ord "z"))%N
  || ((ord "A" <=? b) && (b <=? ord "Z"))%N
  || ((ord "0" <=? b) && (b <=? ord "9"))%N
  || (b =? ord "_")%N || (b =? ord ".")%N || (b =? ord "-")%N
  || (b =? ord "~")%N || (b =? ord "/")%N.

Definition hex_digit (n : N) : N :=
  (if n <? 10 then ord "0" + n else ord "A" + (n - 10))%N.

Definition quote_byte (b : N) : pystr :=
  if unreserved b then [b]
  else [ord "%"; hex_digit (b / 16)%N; hex_digit (b mod 16)%N].

Fixpoint quote (s : pystr) : outcome pystr :=
  match s with
  | [] => Return []
  | c :: r =>
      match utf8 c with
      | Some bytes => q <- quote r ;; Return (flat_map quote_byte bytes ++ q)%list
      | None => Raise (ValueError "UnicodeEncodeError")
      end
  end.

End RefQuote.

(** Contract of an engine for the backward step: [prev_occurrence] returns
    the latest occurrence strictly before the cursor. *)
Class PrevLaws (E : CronEngine) : Prop := {
  prev_earlier : forall s t u, prev_occurrence s t = Some u -> u < t;
  prev_fires : forall s t u, prev_occurrence s t = Some u -> fires s u = true;
  prev_greatest : forall s t u, prev_occurrence s t = Some u ->
                    forall v, u < v < t -> fires s v = false
}.

(** The schedule of "0 0 31 2 *": February 31st, which no year has. *)
Definition february_31st : RefEngine.cron :=
  {| RefEngine.minutes := [{| RefEngine.first := 0; RefEngine.last := 0; RefEngine.step := 1 |}];
     RefEngine.hours := [{| RefEngine.first := 0; RefEngine.last := 0; RefEngine.step := 1 |}];
     RefEngine.days := [{| RefEngine.first := 31; RefEngine.last := 31; RefEngine.step := 1 |}];
     RefEngine.months := [{| RefEngine.first := 2; RefEngine.last := 2; RefEngine.step := 1 |}];
     RefEngine.weekdays := RefEngine.star 0 7 |}.

(* ================================================================== *)
(** * The counting loop *)

Section Loop.

Context {E : CronEngine}.

Lemma get_next_some (s : schedule) (c u : datetime) :
  next_occurrence s c = Some u ->
  get_next {| expanded := s; cur := c |}
  = Return (u, {| expanded := s; cur := u |}).
Proof. intros H. unfold get_next. simpl. now rewrite H. Qed.

Lemma get_next_none (s : schedule) (c : datetime) :
  next_occurrence s c = None ->
  get_next {| expanded := s; cur := c |} = Raise CroniterBadDateError.
Proof. intros H. unfold get_next. simpl. now rewrite H. Qed.

Lemma count_loop_S (fuel : nat) (it : croniter) (e f : Z) :
  count_loop (S fuel) it e f =
  match get_next it with
  | Return (next_run, it') =>
      if next_run <? e then
        let (r, calls) := count_loop fuel it' e (f + 1) in
        (r, Some next_run :: calls)
      else (Return f, [Some next_run])
  | Raise x => (Raise x, [None])
  | OutOfFuel => (OutOfFuel, [])
  end.
Proof. reflexivity. Qed.

Lemma last_cons_default {A : Type} (l : list A) (a d d' : A) :
  List.last (a :: l) d = List.last (a :: l) d'.
Proof.
  revert a. induction l as [|b l IH]; intros a; [reflexivity|].
  change (List.last (b :: l) d = List.last (b :: l) d'). apply IH.
Qed.

Lemma minute_us_pos : 0 < minute_us.
Proof. reflexivity. Qed.

Lemma aligned_step (c u e : Z) :
  u mod minute_us = 0 -> c < u -> u < e ->
  0 <= minutes_between u e < minutes_between c e.
Proof.
  intros Hal Hcu Hue. unfold minutes_between.
  pose proof minute_us_pos as HM.
  assert (Hu : u = minute_us * (u / minute_us)).
  { rewrite (Z.div_mod u minute_us) at 1 by lia. lia. }
  assert (c / minute_us < u / minute_us).
  { apply Z.div_lt_upper_bound; lia. }
  assert (u / minute_us <= (e - 1) / minute_us).
  { apply Z.div_le_mono; lia. }
  lia.
Qed.

Context {L : EngineLaws E}.

(** The loop ends within [n + 1] calls when at most [n] whole minutes lie
    between the cursor and the end time, whatever the engine answers. *)
Lemma count_loop_terminates (n : nat) :
  forall (s : schedule) (c e f : Z),
    minutes_between c e <= Z.of_nat n ->
    exists r calls,
      r <> OutOfFuel /\ (List.length calls <= n + 1)%nat /\
      forall fuel, (n < fuel)%nat ->
        count_loop fuel {| expanded := s; cur := c |} e f = (r, calls).
Proof.
  induction n as [|n IH]; intros s c e f Hn.
  - destruct (next_occurrence s c) as [u|] eqn:Hnx.
    + exists (Return f), [Some u]. split; [discriminate|]. split; [simpl; lia|].
      intros [|fuel] Hf; [lia|]. rewrite count_loop_S, (get_next_some _ _ _ Hnx).
      destruct (u <? e) eqn:Hlt; [|reflexivity].
      apply Z.ltb_lt in Hlt.
      pose proof (aligned_step c u e (next_aligned _ _ _ Hnx)
                    (next_later _ _ _ Hnx) Hlt). lia.
    + exists (Raise CroniterBadDateError), [None].
      split; [discriminate|]. split; [simpl; lia|].
      intros [|fuel] Hf; [lia|]. now rewrite count_loop_S, (get_next_none _ _ Hnx).
  - destruct (next_occurrence s c) as [u|] eqn:Hnx.
    + destruct (u <? e) eqn:Hlt.
      * apply Z.ltb_lt in Hlt.
        pose proof (aligned_step c u e (next_aligned _ _ _ Hnx)
                      (next_later _ _ _ Hnx) Hlt) as Hst.
        destruct (IH s u e (f + 1)) as (r & calls & Hr & Hlen & Hrun); [lia|].
        exists r, (Some u :: calls). split; [exact Hr|]. split; [simpl; lia|].
        intros [|fuel] Hf; [lia|].
        rewrite count_loop_S, (get_next_some _ _ _ Hnx),
          (proj2 (Z.ltb_lt _ _) Hlt), Hrun by lia.
        reflexivity.
      * exists (Return f), [Some u]. split; [discriminate|]. split; [simpl; lia|].
        intros [|fuel] Hf; [lia|].
        now rewrite count_loop_S, (get_next_some _ _ _ Hnx), Hlt.
    + exists (Raise CroniterBadDateError), [None].
      split; [discriminate|]. split; [simpl; lia|].
      intros [|fuel] Hf; [lia|]. now rewrite count_loop_S, (get_next_none _ _ Hnx).
Qed.

(** On a schedule whose iteration does not fail before the end time the
    loop returns the number of occurrences strictly between the cursor and
    the end time.
    [occs] are the counted occurrences, [stop] the one the loop left on. *)
Lemma count_loop_counts (n : nat) :
  forall (s : schedule) (c e f : Z),
    c < e -> iterable_between s c e ->
    minutes_between c e <= Z.of_nat n ->
    exists occs stop,
      StronglySorted Z.lt occs /\
      (forall u, In u occs <-> (c < u < e /\ fires s u = true)) /\
      e <= stop /\ next_occurrence s (List.last occs c) = Some stop /\
      (List.length occs <= n)%nat /\
      forall fuel, (n < fuel)%nat ->
        count_loop fuel {| expanded := s; cur := c |} e f
        = (Return (f + Z.of_nat (List.length occs)), map Some (occs ++ [stop])).
Proof.
  assert (Hexit : forall (n : nat) s c e f u,
    next_occurrence s c = Some u -> e <= u ->
    exists occs stop,
      StronglySorted Z.lt occs /\
      (forall u, In u occs <-> (c < u < e /\ fires s u = true)) /\
      e <= stop /\ next_occurrence s (List.last occs c) = Some stop /\
      (List.length occs <= n)%nat /\
      forall fuel, (n < fuel)%nat ->
        count_loop fuel {| expanded := s; cur := c |} e f
        = (Return (f + Z.of_nat (List.length occs)), map Some (occs ++ [stop]))).
  { clear n. intros n s c e f u Hnx Hge. exists [], u.
    split; [constructor|]. split.
    { intros x. split; [intros []|]. intros [Hr Hf].
      rewrite (next_least _ _ _ Hnx x) in Hf by lia. discriminate. }
    split; [exact Hge|]. split; [exact Hnx|]. split; [simpl; lia|].
    intros [|fuel] Hfu; [lia|].
    rewrite count_loop_S, (get_next_some _ _ _ Hnx), (proj2 (Z.ltb_ge _ _) Hge).
    simpl. now rewrite Z.add_0_r. }
  induction n as [|n IH]; intros s c e f Hce Hs Hn;
    destruct (Hs c ltac:(lia)) as [u Hnx];
    pose proof (next_later _ _ _ Hnx) as Hcu;
    pose proof (next_aligned _ _ _ Hnx) as Hal;
    destruct (Z_lt_le_dec u e) as [Hlt|Hge]; eauto.
  - pose proof (aligned_step c u e Hal Hcu Hlt). lia.
  - pose proof (aligned_step c u e Hal Hcu Hlt) as Hst.
    destruct (IH s u e (f + 1) Hlt) as (occs & stop & Hso & Hin & Hstop & Hlast & Hlen & Hrun);
      [intros t Ht; apply Hs; lia|lia|].
    exists (u :: occs), stop. split; [|split; [|split; [|split; [|split]]]].
    + constructor; [exact Hso|]. apply Forall_forall. intros x Hx.
      apply Hin in Hx. lia.
    + intros x. simpl. rewrite Hin. split.
      * intros [<-|[Hr Hf]]; [split; [lia|exact (next_fires _ _ _ Hnx)]|split; [lia|exact Hf]].
      * intros [Hr Hf]. destruct (Z.eq_dec u x) as [->|Hne]; [now left|right].
        split; [|exact Hf]. destruct (Z_lt_le_dec x u) as [Hxu|Hxu]; [|lia].
        rewrite (next_least _ _ _ Hnx x) in Hf by lia. discriminate.
    + exact Hstop.
    + destruct occs as [|z occs]; [exact Hlast|].
      change (List.last (u :: z :: occs) c) with (List.last (z :: occs) c).
      now rewrite (last_cons_default occs z c u).
    + simpl; lia.
    + intros [|fuel] Hfu; [lia|].
      rewrite count_loop_S, (get_next_some _ _ _ Hnx), (proj2 (Z.ltb_lt _ _) Hlt), Hrun by lia.
      simpl. f_equal. f_equal. lia.
Qed.

End Loop.

(* ================================================================== *)
(** * [get_cron_frequency] *)

Section Frequency.

Context {E : CronEngine}.

Lemma valid_period_window (period : string) :
  valid_period period ->
  windowLength period = Some (window_minutes period * minute_us) /\
  0 < window_minutes period.
Proof. intros [->|[->| ->]]; split; reflexivity. Qed.

Lemma windowLength_valid (period : string) (W : Z) :
  windowLength period = Some W -> valid_period period.
Proof.
  unfold windowLength, valid_period.
  destruct (String.eqb_spec period "day"); [auto|].
  destruct (String.eqb_spec period "week"); [auto|].
  destruct (String.eqb_spec period "month"); [auto|discriminate].
Qed.

Lemma invalid_period_window (period : string) :
  ~ valid_period period -> windowLength period = None /\ window_minutes period = 0.
Proof.
  unfold windowLength, window_minutes, valid_period. intros H.
  destruct (String.eqb_spec period "day"); [tauto|].
  destruct (String.eqb_spec period "week"); [tauto|].
  destruct (String.eqb_spec period "month"); [tauto|]. auto.
Qed.

Lemma datetime_add_fits (t d : Z) :
  datetime_min <= t + d <= datetime_max -> datetime_add t d = Return (t + d).
Proof.
  intros [H1 H2]. unfold datetime_add.
  now rewrite (proj2 (Z.leb_le _ _) H1), (proj2 (Z.leb_le _ _) H2).
Qed.

Lemma datetime_add_overflow (t d : Z) :
  ~ datetime_min <= t + d <= datetime_max -> datetime_add t d = Raise OverflowError.
Proof.
  intros H. unfold datetime_add.
  destruct (Z.leb_spec datetime_min (t + d)); [|reflexivity].
  destruct (Z.leb_spec (t + d) datetime_max); [|reflexivity]. lia.
Qed.

(** With a parsed expression, a valid period and a window that ends within
    the range of [datetime], the call is the loop run from [start_time] to
    [start_time + windowLength period]. *)
Lemma run_valid (fuel : nat) (expr : string) (s : schedule)
    (start_time : datetime) (period : string) :
  expand expr = Some s -> valid_period period -> window_fits start_time period ->
  get_cron_frequency_run fuel expr start_time period
  = count_loop fuel {| expanded := s; cur := start_time |}
      (start_time + window_minutes period * minute_us) 0.
Proof.
  intros Hs Hp Hfit. unfold get_cron_frequency_run, croniter_new. rewrite Hs.
  unfold window_fits in Hfit.
  destruct Hp as [->|[->| ->]]; cbn [String.eqb Ascii.eqb Bool.eqb];
    rewrite datetime_add_fits by exact Hfit; reflexivity.
Qed.

(** With a parsed expression and a valid period, a window that ends past
    the range of [datetime] raises before the loop. *)
Lemma run_overflow (fuel : nat) (expr : string) (s : schedule)
    (start_time : datetime) (period : string) :
  expand expr = Some s -> valid_period period -> ~ window_fits start_time period ->
  get_cron_frequency_run fuel expr start_time period = (Raise OverflowError, []).
Proof.
  intros Hs Hp Hfit. unfold get_cron_frequency_run, croniter_new. rewrite Hs.
  unfold window_fits in Hfit.
  destruct Hp as [->|[->| ->]]; cbn [String.eqb Ascii.eqb Bool.eqb];
    rewrite datetime_add_overflow by exact Hfit; reflexivity.
Qed.

Lemma window_fits_dec (start_time : datetime) (period : string) :
  window_fits start_time period \/ ~ window_fits start_time period.
Proof. unfold window_fits. lia. Qed.

Lemma run_malformed (fuel : nat) (expr : string) (start_time : datetime)
    (period : string) :
  expand expr = None ->
  get_cron_frequency_run fuel expr start_time period
  = (Raise CroniterBadCronError, []).
Proof.
  intros Hs. unfold get_cron_frequency_run, croniter_new. now rewrite Hs.
Qed.

Lemma run_invalid_period (fuel : nat) (expr : string) (s : schedule)
    (start_time : datetime) (period : string) :
  expand expr = Some s -> ~ valid_period period ->
  get_cron_frequency_run fuel expr start_time period
  = (Raise (ValueError "Unsupported period. Choose from 'day', 'week', 'month'."), []).
Proof.
  intros Hs Hp. unfold get_cron_frequency_run, croniter_new. rewrite Hs.
  unfold valid_period in Hp.
  destruct (String.eqb_spec period "day"); [tauto|].
  destruct (String.eqb_spec period "week"); [tauto|].
  destruct (String.eqb_spec period "month"); [tauto|]. reflexivity.
Qed.

Lemma minutes_between_window (start_time w : Z) :
  minutes_between start_time (start_time + w * minute_us) <= w.
Proof.
  unfold minutes_between. pose proof minute_us_pos as HM.
  assert ((start_time + w * minute_us - 1) / minute_us
          <= (start_time + w * minute_us) / minute_us)
    by (apply Z.div_le_mono; lia).
  rewrite Z.div_add in H by lia. lia.
Qed.

(** A call that returns had a parsed expression and a valid period. *)
Lemma frequency_return_inv (fuel : nat) (expr : string)
    (start_time : datetime) (period : string) (n : Z) :
  get_cron_frequency fuel expr start_time period = Return n ->
  (exists s, expand expr = Some s) /\ valid_period period.
Proof.
  unfold get_cron_frequency. intros H.
  destruct (expand expr) as [s|] eqn:Hs.
  - split; [eauto|].
    destruct (windowLength period) as [W|] eqn:HW;
      [exact (windowLength_valid _ _ HW)|].
    assert (Hp : ~ valid_period period).
    { intros Hp. apply valid_period_window in Hp. destruct Hp; congruence. }
    rewrite (run_invalid_period _ _ _ _ _ Hs Hp) in H. discriminate.
  - rewrite (run_malformed _ _ _ _ Hs) in H. discriminate.
Qed.

(** A call that returns had a window that ends within the range of
    [datetime]. *)
Lemma frequency_return_fits (fuel : nat) (expr : string)
    (start_time : datetime) (period : string) (n : Z) :
  get_cron_frequency fuel expr start_time period = Return n ->
  window_fits start_time period.
Proof.
  intros H. destruct (frequency_return_inv _ _ _ _ _ H) as [[s Hs] Hp].
  destruct (window_fits_dec start_time period) as [Hfit|Hfit]; [exact Hfit|].
  unfold get_cron_frequency in H.
  rewrite (run_overflow _ _ _ _ _ Hs Hp Hfit) in H. discriminate.
Qed.

Context {L : EngineLaws E}.

(** Every call settles: with more fuel than the window has minutes the
    outcome is a result or an exception, the same for all such fuel, after
    at most one call of [get_next] per minute of the window and one more. *)
Lemma run_settles (expr : string) (start_time : datetime) (period : string) :
  exists r calls,
    r <> OutOfFuel /\
    Z.of_nat (List.length calls) <= window_minutes period + 1 /\
    forall fuel, window_minutes period < Z.of_nat fuel ->
      get_cron_frequency_run fuel expr start_time period = (r, calls).
Proof.
  destruct (expand expr) as [s|] eqn:Hs.
  - destruct (windowLength period) as [W|] eqn:HW.
    + pose proof (windowLength_valid _ _ HW) as Hp.
      destruct (valid_period_window _ Hp) as [_ Hpos].
      destruct (window_fits_dec start_time period) as [Hfit|Hfit].
      * destruct (count_loop_terminates (Z.to_nat (window_minutes period)) s
                    start_time (start_time + window_minutes period * minute_us) 0)
          as (r & calls & Hr & Hlen & Hrun).
        { pose proof (minutes_between_window start_time (window_minutes period)). lia. }
        exists r, calls. split; [exact Hr|]. split; [lia|].
        intros fuel Hf. rewrite (run_valid _ _ _ _ _ Hs Hp Hfit). apply Hrun. lia.
      * exists (Raise OverflowError), []. split; [discriminate|]. split; [simpl; lia|].
        intros fuel _. apply (run_overflow _ _ _ _ _ Hs Hp Hfit).
    + assert (Hp : ~ valid_period period).
      { intros Hp. apply valid_period_window in Hp. destruct Hp; congruence. }
      eexists _, []. split; [|split];
        [|simpl; destruct (invalid_period_window _ Hp); lia
         |intros fuel _; apply (run_invalid_period _ _ _ _ _ Hs Hp)].
      discriminate.
  - exists (Raise CroniterBadCronError), []. split; [discriminate|]. split.
    + simpl. unfold window_minutes.
      destruct (period =? "day")%string; [lia|].
      destruct (period =? "week")%string; [lia|].
      destruct (period =? "month")%string; lia.
    + intros fuel _. apply (run_malformed _ _ _ _ Hs).
Qed.

(** The result of a call on a parsed expression and a valid period, with a
    window that ends within the range of [datetime] and in which iteration
    does not fail, is the number of occurrences in the window. *)
Lemma run_counts (expr : string) (s : schedule) (start_time : datetime)
    (period : string) :
  expand expr = Some s -> valid_period period -> window_fits start_time period ->
  let end_time := start_time + window_minutes period * minute_us in
  iterable_between s start_time end_time ->
  exists occs stop,
    StronglySorted Z.lt occs /\
    (forall u, In u occs <-> (start_time < u < end_time /\ fires s u = true)) /\
    end_time <= stop /\ next_occurrence s (List.last occs start_time) = Some stop /\
    Z.of_nat (List.length occs) <= window_minutes period /\
    forall fuel, window_minutes period < Z.of_nat fuel ->
      get_cron_frequency_run fuel expr start_time period
      = (Return (Z.of_nat (List.length occs)), map Some (occs ++ [stop])).
Proof.
  intros Hs Hp Hfit end_time Ha.
  destruct (valid_period_window _ Hp) as [_ Hpos].
  pose proof minute_us_pos as HM.
  destruct (count_loop_counts (Z.to_nat (window_minutes period)) s
              start_time end_time 0 ltac:(unfold end_time; nia) Ha)
    as (occs & stop & Hso & Hin & Hstop & Hlast & Hlen & Hrun).
  { pose proof (minutes_between_window start_time (window_minutes period)).
    unfold end_time. lia. }
  exists occs, stop. repeat (split; [assumption || lia|]).
  intros fuel Hf. rewrite (run_valid _ _ _ _ _ Hs Hp Hfit). apply Hrun. lia.
Qed.

End Frequency.

(* ================================================================== *)
(** * Lists of occurrences *)

Lemma sorted_lt_NoDup (l : list Z) : StronglySorted Z.lt l -> NoDup l.
Proof.
  induction 1 as [|a l Hs IH Hall]; constructor; [|exact IH].
  intros Hin. rewrite Forall_forall in Hall. specialize (Hall a Hin). lia.
Qed.

(** Two strictly increasing lists, the members of the first among those of
    the second: the first is no longer. *)
Lemma sorted_incl_length (l1 l2 : list Z) :
  StronglySorted Z.lt l1 -> incl l1 l2 ->
  (List.length l1 <= List.length l2)%nat.
Proof. intros Hs. apply NoDup_incl_length, sorted_lt_NoDup, Hs. Qed.

(* ================================================================== *)
(** * [sorted(..., reverse=True)] *)

Section Sorting.

Context {A : Type} (key : A -> Z).

Lemma insert_desc_perm (x : A) (l : list A) :
  Permutation (insert_desc key x l) (x :: l).
Proof.
  induction l as [|y l IH]; simpl; [reflexivity|].
  destruct (key x <? key y); [|reflexivity].
  rewrite IH. apply perm_swap.
Qed.

Lemma sorted_reverse_perm (l : list A) : Permutation (sorted_reverse key l) l.
Proof.
  induction l as [|x l IH]; simpl; [reflexivity|].
  rewrite insert_desc_perm. now constructor.
Qed.

Lemma sorted_reverse_length (l : list A) :
  List.length (sorted_reverse key l) = List.length l.
Proof. apply Permutation_length, sorted_reverse_perm. Qed.

Lemma insert_desc_sorted (x : A) (l : list A) :
  non_increasing (map key l) -> non_increasing (map key (insert_desc key x l)).
Proof.
  unfold non_increasing.
  induction l as [|y l IH]; simpl; intros Hs.
  - constructor; constructor.
  - destruct (key x <? key y) eqn:Hlt.
    + apply Z.ltb_lt in Hlt. inversion Hs as [|? ? Hs' Hall]; subst.
      simpl. constructor; [apply IH, Hs'|].
      rewrite Forall_forall in *. intros k Hk.
      apply (Permutation_in _ (Permutation_map key (insert_desc_perm x l))) in Hk.
      destruct Hk as [<-|Hk]; [lia|auto].
    + apply Z.ltb_ge in Hlt. simpl. constructor; [exact Hs|].
      inversion Hs as [|? ? Hs' Hall]; subst.
      constructor; [lia|]. rewrite Forall_forall in *. intros k Hk.
      specialize (Hall k Hk). lia.
Qed.

Lemma sorted_reverse_sorted (l : list A) :
  non_increasing (map key (sorted_reverse key l)).
Proof.
  induction l as [|x l IH]; simpl; [constructor|].
  apply insert_desc_sorted, IH.
Qed.

(** Stability: the elements with a given key keep their order. *)
Lemma insert_desc_stable (k : Z) (x : A) (l : list A) :
  filter (fun y => key y =? k) (insert_desc key x l)
  = filter (fun y => key y =? k) (x :: l).
Proof.
  induction l as [|y l IH]; [reflexivity|].
  simpl insert_desc. destruct (key x <? key y) eqn:Hlt; [|reflexivity].
  apply Z.ltb_lt in Hlt.
  change (filter (fun y0 => key y0 =? k) (y :: insert_desc key x l))
    with (if key y =? k then y :: filter (fun y0 => key y0 =? k) (insert_desc key x l)
          else filter (fun y0 => key y0 =? k) (insert_desc key x l)).
  rewrite IH. simpl.
  destruct (Z.eqb_spec (key y) k), (Z.eqb_spec (key x) k); try reflexivity. lia.
Qed.

Lemma sorted_reverse_stable (k : Z) (l : list A) :
  filter (fun y => key y =? k) (sorted_reverse key l)
  = filter (fun y => key y =? k) l.
Proof.
  induction l as [|x l IH]; [reflexivity|].
  simpl sorted_reverse. rewrite insert_desc_stable. simpl. now rewrite IH.
Qed.

End Sorting.

(* ================================================================== *)
(** * [sort_crons_by_frequency] *)

Section Ranking.

Context {E : CronEngine}.

(** What the comprehension returns: each expression, in order, with the
    frequency its own call returned. *)
Lemma frequencies_return (fuel : nat) (start_time : datetime) (period : string)
    (exprs : list string) (fr : list (string * Z)) :
  frequencies fuel start_time period exprs = Return fr ->
  map fst fr = exprs /\
  Forall (fun p => get_cron_frequency fuel (fst p) start_time period = Return (snd p)) fr.
Proof.
  revert fr. induction exprs as [|e exprs IH]; simpl; intros fr H.
  - injection H as <-. split; [reflexivity|constructor].
  - destruct (get_cron_frequency fuel e start_time period) as [n| |] eqn:He;
      try discriminate. simpl in H.
    destruct (frequencies fuel start_time period exprs) as [l| |];
      try discriminate. simpl in H. injection H as <-.
    destruct (IH l eq_refl) as [Hm Hall]. split; [simpl; now rewrite Hm|].
    constructor; [exact He|exact Hall].
Qed.

Lemma frequencies_all_return (fuel : nat) (start_time : datetime)
    (period : string) (exprs : list string) :
  Forall (fun e => exists n, get_cron_frequency fuel e start_time period = Return n)
         exprs ->
  exists fr, frequencies fuel start_time period exprs = Return fr.
Proof.
  induction 1 as [|e exprs [n He] _ [fr IH]]; simpl; [eauto|].
  rewrite He, IH. simpl. eauto.
Qed.

Lemma sort_return_inv (fuel : nat) (clock : datetime) (exprs : list string)
    (period : string) (out : list (string * Z)) :
  sort_crons_by_frequency fuel clock exprs period = Return out ->
  exists fr, frequencies fuel (cron_start_time clock) period exprs = Return fr /\
             out = sorted_reverse snd fr.
Proof.
  unfold sort_crons_by_frequency. intros H.
  destruct (frequencies fuel (cron_start_time clock) period exprs) as [fr| |];
    try discriminate.
  simpl in H. injection H as <-. eauto.
Qed.

Context {L : EngineLaws E}.

(** The comprehension settles like the calls it makes. *)
Lemma frequencies_settles (start_time : datetime) (period : string)
    (exprs : list string) :
  exists r, r <> OutOfFuel /\
    forall fuel, window_minutes period < Z.of_nat fuel ->
      frequencies fuel start_time period exprs = r.
Proof.
  induction exprs as [|e exprs (r & Hr & IH)].
  - exists (Return []). split; [discriminate|reflexivity].
  - destruct (run_settles e start_time period) as (r1 & calls & Hr1 & _ & H1).
    destruct r1 as [n|x|]; [| |congruence].
    + destruct r as [l|x|]; [| |congruence].
      * exists (Return ((e, n) :: l)). split; [discriminate|].
        intros fuel Hf. simpl. unfold get_cron_frequency.
        now rewrite (H1 fuel Hf), (IH fuel Hf).
      * exists (Raise x). split; [discriminate|].
        intros fuel Hf. simpl. unfold get_cron_frequency.
        now rewrite (H1 fuel Hf), (IH fuel Hf).
    + exists (Raise x). split; [discriminate|].
      intros fuel Hf. simpl. unfold get_cron_frequency.
      now rewrite (H1 fuel Hf).
Qed.

End Ranking.

(* ================================================================== *)
(** * The reference engine meets the contract *)

Module RefEngineFacts.
Import RefEngine.

Lemma first_from_none (P : Z -> bool) (k : nat) :
  forall m, first_from P k m = None ->
    forall y, m <= y < m + 2 ^ Z.of_nat k -> P y = false.
Proof.
  induction k as [|k IH]; intros m H y Hy.
  - change (2 ^ Z.of_nat 0) with 1 in Hy. simpl in H.
    assert (y = m) by lia. subst y. now destruct (P m).
  - rewrite Nat2Z.inj_succ, Z.pow_succ_r in Hy by lia.
    cbn [first_from] in H.
    destruct (first_from P k m) eqn:H1; [discriminate|].
    destruct (Z_lt_le_dec y (m + 2 ^ Z.of_nat k)).
    + apply (IH m H1). lia.
    + apply (IH _ H). lia.
Qed.

Lemma first_from_some (P : Z -> bool) (k : nat) :
  forall m x, first_from P k m = Some x ->
    m <= x < m + 2 ^ Z.of_nat k /\ P x = true /\
    forall y, m <= y < x -> P y = false.
Proof.
  induction k as [|k IH]; intros m x H.
  - simpl in H. destruct (P m) eqn:HP; [|discriminate]. injection H as <-.
    change (2 ^ Z.of_nat 0) with 1. repeat split; try lia. exact HP.
  - assert (Hp : 2 ^ Z.of_nat (S k) = 2 ^ Z.of_nat k + 2 ^ Z.of_nat k).
    { rewrite Nat2Z.inj_succ, Z.pow_succ_r by lia. lia. }
    assert (0 < 2 ^ Z.of_nat k) by (apply Z.pow_pos_nonneg; lia).
    cbn [first_from] in H.
    destruct (first_from P k m) as [x1|] eqn:H1.
    + injection H as <-. destruct (IH _ _ H1) as (Hr & HP & Hl).
      repeat split; try lia; assumption.
    + destruct (IH _ _ H) as (Hr & HP & Hl).
      split; [lia|]. split; [exact HP|]. intros y Hy.
      destruct (Z_lt_le_dec y (m + 2 ^ Z.of_nat k)) as [Hlo|Hhi]; [|apply Hl; lia].
      apply (first_from_none _ _ _ H1). lia.
Qed.

Lemma minute_floor (t : Z) :
  (t / minute_us) * minute_us <= t < (t / minute_us + 1) * minute_us.
Proof.
  pose proof (Z.div_mod t minute_us ltac:(discriminate)).
  pose proof (Z.mod_pos_bound t minute_us minute_us_pos). lia.
Qed.

#[export] Instance laws : EngineLaws engine.
Proof.
  split; simpl; unfold next; intros s t u H;
    destruct (first_from (fires_minute s) horizon (t / minute_us + 1)) as [x|] eqn:Hx;
    try discriminate; simpl in H; injection H as <-;
    destruct (first_from_some _ _ _ _ Hx) as (Hr & HP & Hl);
    pose proof (minute_floor t) as Ht; pose proof minute_us_pos as HM.
  - nia.
  - apply Z.mod_mul. lia.
  - unfold fires_at. rewrite Z.mod_mul, Z.div_mul by lia. exact HP.
  - intros v Hv. unfold fires_at.
    destruct (Z.eqb_spec (v mod minute_us) 0) as [Hal|]; [|reflexivity].
    simpl. apply Hl.
    assert (v = minute_us * (v / minute_us)).
    { rewrite (Z.div_mod v minute_us) at 1 by lia. lia. }
    split.
    + assert (t / minute_us < v / minute_us); [|lia].
      apply Z.div_lt_upper_bound; lia.
    + nia.
Qed.

(** A schedule with an occurrence within the horizon of every minute can be
    iterated from any instant. *)
Lemma always_next_intro (s : cron) :
  (forall m, exists x, m <= x < m + 2 ^ Z.of_nat horizon /\ fires_minute s x = true) ->
  always_next (E := engine) s.
Proof.
  intros H t. simpl. unfold next.
  destruct (first_from (fires_minute s) horizon (t / minute_us + 1)) as [x|] eqn:Hx;
    [simpl; now eauto|].
  destruct (H (t / minute_us + 1)) as (y & Hr & HP).
  rewrite (first_from_none _ _ _ Hx y Hr) in HP. discriminate.
Qed.

(** Every day of the era has a month from 1 to 12 and a day from 1 to 31. *)
Lemma civil_of_doe_range (doe : Z) :
  0 <= doe < 146097 -> date_in_range (civil_of_doe doe) = true.
Proof.
  intros H. unfold civil_of_doe, date_in_range.
  set (yoe := (doe - doe / 1460 + doe / 36524 - doe / 146096) / 365).
  set (doy := doe - (365 * yoe + yoe / 4 - yoe / 100)).
  assert (Hdoy : 0 <= doy <= 365).
  { subst doy yoe. Z.div_mod_to_equations. lia. }
  clearbody doy. clear yoe H.
  set (mp := (5 * doy + 2) / 153).
  assert (Hmp : 0 <= mp <= 11 /\ 1 <= doy - (153 * mp + 2) / 5 + 1 <= 31).
  { subst mp. Z.div_mod_to_equations. lia. }
  clearbody mp. destruct Hmp as [Hmp Hd].
  rewrite (proj2 (Z.leb_le _ _) (proj1 Hd)), (proj2 (Z.leb_le _ _) (proj2 Hd)).
  rewrite !andb_true_r.
  destruct (mp <? 10) eqn:Hlt;
    [apply Z.ltb_lt in Hlt|apply Z.ltb_ge in Hlt];
    apply andb_true_intro; split; apply Z.leb_le; lia.
Qed.

Lemma civil_from_days_range (dn y m d : Z) :
  civil_from_days dn = (y, m, d) -> 1 <= m <= 12 /\ 1 <= d <= 31.
Proof.
  unfold civil_from_days.
  pose proof (civil_of_doe_range ((dn + 719468) mod 146097)
                (Z.mod_pos_bound (dn + 719468) 146097 ltac:(reflexivity))) as H.
  destruct (civil_of_doe ((dn + 719468) mod 146097)) as [[yoe m'] d'].
  intros Heq. injection Heq as _ <- <-. simpl in H.
  repeat (apply andb_prop in H as [H ?]). lia.
Qed.

Lemma star_match (lo hi v : Z) : lo <= v <= hi -> field_match (star lo hi) v = true.
Proof.
  intros H. unfold field_match, star, item_match. simpl.
  rewrite Z.mod_1_r.
  rewrite (proj2 (Z.leb_le _ _) (proj1 H)), (proj2 (Z.leb_le _ _) (proj2 H)).
  reflexivity.
Qed.

(** With [* * *] in the day, month and weekday fields only the minute and
    the hour decide. *)
Lemma fires_minute_every_day (mi h : field) (m : Z) :
  fires_minute {| minutes := mi; hours := h; days := star 1 31;
                  months := star 1 12; weekdays := star 0 7 |} m
  = field_match mi (m mod 60) && field_match h ((m / 60) mod 24).
Proof.
  unfold fires_minute. cbn [minutes hours days months weekdays].
  destruct (field_match mi (m mod 60)); [|reflexivity].
  destruct (field_match h ((m / 60) mod 24)); [|reflexivity].
  destruct (civil_from_days (m / 1440)) as [[y mo] d] eqn:Hc.
  destruct (civil_from_days_range _ _ _ _ Hc) as [Hmo Hd].
  change (days_restricted (star 1 31)) with false.
  cbn [andb].
  rewrite (star_match 1 12 mo Hmo), (star_match 1 31 d Hd).
  unfold weekday_match, weekday_of_days.
  rewrite (star_match 0 7 ((m / 1440 + 4) mod 7)); [reflexivity|].
  pose proof (Z.mod_pos_bound (m / 1440 + 4) 7 ltac:(reflexivity)). lia.
Qed.

Lemma parse_every_minute : parse "* * * * *" = Some every_minute.
Proof. reflexivity. Qed.

Lemma parse_hourly : parse "0 * * * *" = Some hourly.
Proof. reflexivity. Qed.

Lemma parse_daily : parse "0 0 * * *" = Some daily.
Proof. reflexivity. Qed.

Lemma every_minute_fires (m : Z) : fires_minute every_minute m = true.
Proof.
  unfold every_minute. rewrite fires_minute_every_day.
  rewrite !star_match; [reflexivity| |].
  - pose proof (Z.mod_pos_bound (m / 60) 24 ltac:(reflexivity)). lia.
  - pose proof (Z.mod_pos_bound m 60 ltac:(reflexivity)). lia.
Qed.

(** [* * * * *] fires exactly on the whole minutes. *)
Lemma every_minute_fires_at (t : Z) :
  fires_at every_minute t = (t mod minute_us =? 0).
Proof. unfold fires_at. now rewrite every_minute_fires, andb_true_r. Qed.

Lemma every_minute_next (t : Z) :
  next every_minute t = Some ((t / minute_us + 1) * minute_us).
Proof.
  unfold next.
  destruct (first_from (fires_minute every_minute) horizon (t / minute_us + 1))
    as [x|] eqn:Hx.
  - destruct (first_from_some _ _ _ _ Hx) as (Hr & _ & Hl). simpl. f_equal. f_equal.
    destruct (Z.eq_dec x (t / minute_us + 1)) as [|Hne]; [assumption|].
    specialize (Hl (t / minute_us + 1) ltac:(lia)).
    rewrite every_minute_fires in Hl. discriminate.
  - pose proof (first_from_none _ _ _ Hx (t / minute_us + 1)) as Hn.
    rewrite every_minute_fires in Hn.
    assert (0 < 2 ^ Z.of_nat horizon) by reflexivity.
    specialize (Hn ltac:(lia)). discriminate.
Qed.

Lemma every_minute_always : always_next (E := engine) every_minute.
Proof. intros t. simpl. rewrite every_minute_next. eauto. Qed.

Lemma hourly_always : always_next (E := engine) hourly.
Proof.
  apply always_next_intro. intros m. exists (60 * (m / 60 + 1)).
  pose proof (Z.div_mod m 60 ltac:(discriminate)).
  pose proof (Z.mod_pos_bound m 60 ltac:(reflexivity)).
  assert (2 ^ Z.of_nat horizon = 33554432) by reflexivity.
  split; [lia|]. unfold hourly. rewrite fires_minute_every_day.
  rewrite Z.mul_comm, Z.mod_mul, Z.div_mul by discriminate.
  rewrite star_match; [reflexivity|].
  pose proof (Z.mod_pos_bound (m / 60 + 1) 24 ltac:(reflexivity)). lia.
Qed.

Lemma daily_always : always_next (E := engine) daily.
Proof.
  apply always_next_intro. intros m. exists (1440 * (m / 1440 + 1)).
  pose proof (Z.div_mod m 1440 ltac:(discriminate)).
  pose proof (Z.mod_pos_bound m 1440 ltac:(reflexivity)).
  assert (2 ^ Z.of_nat horizon = 33554432) by reflexivity.
  split; [lia|]. unfold daily. rewrite fires_minute_every_day.
  replace (1440 * (m / 1440 + 1)) with ((24 * (m / 1440 + 1)) * 60) by lia.
  rewrite Z.mod_mul, Z.div_mul by discriminate.
  rewrite Z.mul_comm, Z.mod_mul by discriminate. reflexivity.
Qed.

End RefEngineFacts.

(* ================================================================== *)
(** * Properties of the frequency analysis *)

Section Properties.

Context {E : CronEngine}.

(** Successive results of [get_next] in a run of the loop are strictly
    later than the cursor and than each other. *)
Lemma count_loop_increasing {L : EngineLaws E} (fuel : nat) :
  forall (s : schedule) (c e f : Z),
    StronglySorted Z.lt
      (c :: returned (snd (count_loop fuel {| expanded := s; cur := c |} e f))).
Proof.
  induction fuel as [|fuel IH]; intros s c e f.
  - simpl. constructor; constructor.
  - rewrite count_loop_S.
    destruct (next_occurrence s c) as [u|] eqn:Hnx.
    + rewrite (get_next_some _ _ _ Hnx).
      pose proof (next_later _ _ _ Hnx) as Hcu.
      specialize (IH s u e (f + 1)).
      destruct (u <? e).
      * destruct (count_loop fuel {| expanded := s; cur := u |} e (f + 1))
          as [r calls]. simpl in *.
        constructor; [exact IH|].
        inversion IH as [|? ? _ Hall]; subst.
        constructor; [exact Hcu|].
        rewrite Forall_forall in *. intros x Hx. specialize (Hall x Hx). lia.
      * simpl. repeat constructor. exact Hcu.
    + rewrite (get_next_none _ _ Hnx). simpl. constructor; constructor.
Qed.

(** The loop on a schedule that fires every whole minute. *)
Lemma every_minute_loop (s : schedule) :
  (forall t, next_occurrence s t = Some ((t / minute_us + 1) * minute_us)) ->
  forall (n : nat) (c e f : Z) (fuel : nat),
    (c / minute_us + Z.of_nat n) * minute_us < e
      <= (c / minute_us + Z.of_nat n + 1) * minute_us ->
    (n < fuel)%nat ->
    fst (count_loop fuel {| expanded := s; cur := c |} e f)
    = Return (f + Z.of_nat n).
Proof.
  intros Hs. pose proof minute_us_pos as HM.
  induction n as [|n IH]; intros c e f [|fuel] He Hf; try lia;
    rewrite count_loop_S, (get_next_some _ _ _ (Hs c)).
  - rewrite (proj2 (Z.ltb_ge _ _)) by lia. simpl. f_equal. lia.
  - rewrite (proj2 (Z.ltb_lt _ _)) by nia.
    specialize (IH ((c / minute_us + 1) * minute_us) e (f + 1) fuel).
    rewrite Z.div_mul in IH by lia.
    destruct (count_loop fuel _ e (f + 1)) as [r calls]. simpl in *.
    rewrite IH by lia. f_equal. lia.
Qed.

End Properties.

(* ================================================================== *)
(** * The claims *)




(** C2, as the code has it.  When the expression parses and the period is
    not one of day, week, month, [get_cron_frequency] raises the
    unsupported-period error and has made no [get_next] call: no occurrence
    is computed before the error.  The iterator is built, and the expression
    parsed, before the period is looked at. *)
Theorem invalid_period_raises_before_iteration
    {E : CronEngine} (expr : string) (s : schedule) (start_time : datetime)
    (period : string) (fuel : nat) :
  expand expr = Some s -> ~ valid_period period ->
  get_cron_frequency fuel expr start_time period = Raise UnsupportedPeriodError /\
  snd (get_cron_frequency_run fuel expr start_time period) = [].
Proof.
  intros Hs Hp. unfold get_cron_frequency.
  rewrite (run_invalid_period _ _ _ _ _ Hs Hp). split; reflexivity.
Qed.

Lemma year_not_valid : ~ valid_period "year".
Proof. intros [H|[H|H]]; discriminate. Qed.

Lemma invalid_period_raises_before_iteration_witness :
  RefEngine.parse "* * * * *" = Some RefEngine.every_minute /\
  ~ valid_period "year" /\
  get_cron_frequency (E := RefEngine.engine) 0 "* * * * *" 17 "year"
    = Raise UnsupportedPeriodError /\
  snd (get_cron_frequency_run (E := RefEngine.engine) 0 "* * * * *" 17 "year") = [].
Proof.
  split; [reflexivity|]. split; [exact year_not_valid|].
  apply (invalid_period_raises_before_iteration (E := RefEngine.engine)
           "* * * * *" RefEngine.every_minute 17 "year" 0).
  - reflexivity.
  - exact year_not_valid.
Defined.

(** C2 as stated fails: with a malformed expression and the period "year"
    the error is the engine's parse error, not the unsupported-period
    error. *)
Lemma invalid_period_malformed_cron_counterexample :
  ~ valid_period "year" /\
  get_cron_frequency (E := RefEngine.engine) 1441 "every minute" 17 "year"
    = Raise InvalidCronExpressionError /\
  get_cron_frequency (E := RefEngine.engine) 1441 "every minute" 17 "year"
    <> Raise UnsupportedPeriodError.
Proof.
  split; [exact year_not_valid|]. split; [reflexivity|].
  vm_compute. discriminate.
Qed.

(** C3, as the code has it.  If some expression of the input is malformed,
    or the input is not empty and the period is not one of day, week, month,
    then [sort_crons_by_frequency] returns nothing, whatever the fuel, and
    raises: one and the same exception for all fuel above the minutes of the
    window. *)
Theorem sort_fails_as_a_whole
    {E : CronEngine} {L : EngineLaws E}
    (clock : datetime) (exprs : list string) (period : string) :
  (exists e, In e exprs /\ expand e = None)
  \/ (exprs <> [] /\ ~ valid_period period) ->
  (forall fuel out, sort_crons_by_frequency fuel clock exprs period <> Return out) /\
  exists x, forall fuel, window_minutes period < Z.of_nat fuel ->
    sort_crons_by_frequency fuel clock exprs period = Raise x.
Proof.
  intros H.
  assert (Hnever : forall fuel out,
            sort_crons_by_frequency fuel clock exprs period <> Return out).
  { intros fuel out Hout.
    destruct (sort_return_inv _ _ _ _ _ Hout) as (fr & Hfr & _).
    destruct (frequencies_return _ _ _ _ _ Hfr) as [Hm Hall].
    assert (Hex : forall e, In e exprs ->
              (exists s, expand e = Some s) /\ valid_period period).
    { intros e He. rewrite <- Hm in He. apply in_map_iff in He as (p & <- & Hp).
      rewrite Forall_forall in Hall.
      exact (frequency_return_inv _ _ _ _ _ (Hall p Hp)). }
    destruct H as [(e & He & Hnone)|[Hne Hp]].
    - destruct (Hex e He) as [[s Hs] _]. congruence.
    - destruct exprs as [|e exprs]; [congruence|].
      exact (Hp (proj2 (Hex e (or_introl eq_refl)))). }
  split; [exact Hnever|].
  destruct (frequencies_settles (cron_start_time clock) period exprs)
    as (r & Hr & Hrun).
  destruct r as [fr|x|]; [exfalso| |congruence].
  - set (fuel := Z.to_nat (window_minutes period + 1)).
    assert (Hf : window_minutes period < Z.of_nat fuel).
    { unfold fuel, window_minutes.
      destruct (period =? "day")%string; [lia|].
      destruct (period =? "week")%string; [lia|].
      destruct (period =? "month")%string; lia. }
    apply (Hnever fuel (sorted_reverse snd fr)).
    unfold sort_crons_by_frequency. now rewrite (Hrun fuel Hf).
  - exists x. intros fuel Hf. unfold sort_crons_by_frequency.
    now rewrite (Hrun fuel Hf).
Qed.

Lemma sort_fails_as_a_whole_witness :
  ((exists e, In e ["* * * * *"; "every minute"] /\ RefEngine.parse e = None)
   \/ (["* * * * *"; "every minute"] <> [] /\ ~ valid_period "day")) /\
  (forall fuel out,
     sort_crons_by_frequency (E := RefEngine.engine) fuel 17
       ["* * * * *"; "every minute"] "day" <> Return out) /\
  exists x, forall fuel, window_minutes "day" < Z.of_nat fuel ->
    sort_crons_by_frequency (E := RefEngine.engine) fuel 17
      ["* * * * *"; "every minute"] "day" = Raise x.
Proof.
  assert (H : (exists e, In e ["* * * * *"; "every minute"] /\ RefEngine.parse e = None)
              \/ (["* * * * *"; "every minute"] <> [] /\ ~ valid_period "day")).
  { left. exists "every minute". split; [simpl; auto|reflexivity]. }
  split; [exact H|].
  exact (sort_fails_as_a_whole (E := RefEngine.engine) (L := RefEngineFacts.laws)
           17 ["* * * * *"; "every minute"] "day" H).
Defined.

(** C3 as stated fails: on the empty input the call returns the empty list
    although the period is "year". *)
Lemma sort_empty_invalid_period_counterexample :
  ~ valid_period "year" /\
  sort_crons_by_frequency (E := RefEngine.engine) 1441 17 [] "year" = Return [].
Proof. split; [exact year_not_valid|reflexivity]. Qed.









(** C7.  Whenever [sort_crons_by_frequency] returns, the pairs with any
    given count stand in the output in the order in which their expressions
    stand in the input: [fr] is the list of pairs in input order, and
    selecting a count from the output or from [fr] gives the same list. *)
Theorem sort_is_stable
    {E : CronEngine}
    (clock : datetime) (exprs : list string) (period : string) (fuel : nat)
    (out : list (string * Z)) :
  sort_crons_by_frequency fuel clock exprs period = Return out ->
  exists fr,
    frequencies fuel (cron_start_time clock) period exprs = Return fr /\
    map fst fr = exprs /\
    forall k, filter (fun p => snd p =? k) out = filter (fun p => snd p =? k) fr.
Proof.
  intros H. destruct (sort_return_inv _ _ _ _ _ H) as (fr & Hfr & ->).
  exists fr. split; [exact Hfr|].
  split; [exact (proj1 (frequencies_return _ _ _ _ _ Hfr))|].
  intros k. apply sorted_reverse_stable.
Qed.

Lemma tied_run :
  sort_crons_by_frequency (E := RefEngine.engine) 1441 17 tied_input "day"
  = Return tied_output.
Proof. vm_compute. reflexivity. Qed.

Lemma sort_is_stable_witness :
  sort_crons_by_frequency (E := RefEngine.engine) 1441 17 tied_input "day"
    = Return tied_output /\
  exists fr,
    frequencies (E := RefEngine.engine) 1441 (cron_start_time 17) "day" tied_input
      = Return fr /\
    map fst fr = tied_input /\
    forall k, filter (fun p => snd p =? k) tied_output
              = filter (fun p => snd p =? k) fr.
Proof.
  split; [exact tied_run|].
  exact (sort_is_stable (E := RefEngine.engine) 17 tied_input "day" 1441
           tied_output tied_run).
Defined.

(** C8.  For an expression the engine parses, any start time and a period
    among day, week and month, the counting loop of [get_cron_frequency]
    terminates: with more fuel than the window has minutes the run ends in a
    result or an exception, the same whatever the fuel.  It makes at most
    one [get_next] call per minute of the window (1440 for day, 10080 for
    week, 43200 for month) and the one that leaves the loop.  The successive
    occurrences returned are each strictly later than the one before, all
    after the start time. *)
Theorem counting_loop_terminates
    {E : CronEngine} {L : EngineLaws E}
    (expr : string) (s : schedule) (start_time : datetime) (period : string) :
  expand expr = Some s -> valid_period period ->
  exists r calls,
    r <> OutOfFuel /\
    (forall fuel, window_minutes period < Z.of_nat fuel ->
       get_cron_frequency_run fuel expr start_time period = (r, calls)) /\
    Z.of_nat (List.length calls) <= window_minutes period + 1 /\
    window_minutes period
      = (if (period =? "day")%string then 1440
         else if (period =? "week")%string then 10080 else 43200) /\
    StronglySorted Z.lt (start_time :: returned calls).
Proof.
  intros Hs Hp.
  destruct (run_settles expr start_time period) as (r & calls & Hr & Hlen & Hrun).
  exists r, calls. split; [exact Hr|]. split; [exact Hrun|]. split; [exact Hlen|].
  split; [destruct Hp as [->|[->| ->]]; reflexivity|].
  set (fuel := Z.to_nat (window_minutes period + 1)).
  assert (Hf : window_minutes period < Z.of_nat fuel).
  { destruct (valid_period_window _ Hp). unfold fuel. lia. }
  destruct (window_fits_dec start_time period) as [Hfit|Hfit].
  - pose proof (count_loop_increasing fuel s start_time
                  (start_time + window_minutes period * minute_us) 0) as Hinc.
    rewrite <- (run_valid _ _ _ _ _ Hs Hp Hfit), (Hrun fuel Hf) in Hinc. exact Hinc.
  - pose proof (Hrun fuel Hf) as Hov.
    rewrite (run_overflow _ _ _ _ _ Hs Hp Hfit) in Hov. injection Hov as _ <-.
    simpl. constructor; constructor.
Qed.

Lemma counting_loop_terminates_witness :
  RefEngine.parse "0 0 1 1 *" <> None /\ valid_period "week" /\
  exists r calls,
    r <> OutOfFuel /\
    (forall fuel, window_minutes "week" < Z.of_nat fuel ->
       get_cron_frequency_run (E := RefEngine.engine) fuel "0 0 1 1 *" 17 "week"
       = (r, calls)) /\
    Z.of_nat (List.length calls) <= window_minutes "week" + 1 /\
    window_minutes "week" = 10080 /\
    StronglySorted Z.lt (17 :: returned calls).
Proof.
  split; [discriminate|]. split; [right; left; reflexivity|].
  destruct (RefEngine.parse "0 0 1 1 *") as [s|] eqn:Hs; [|discriminate].
  apply (counting_loop_terminates (E := RefEngine.engine) (L := RefEngineFacts.laws)
           "0 0 1 1 *" s 17 "week").
  - exact Hs.
  - right; left; reflexivity.
Defined.

(** C9.  The default of the [start_time] parameter of [sl_schedule] is
    computed once, when the module is loaded, and every call that omits the
    argument works with that value: two such calls with the same cron and
    format, made at any two clock times, use the same start time, the one
    read at load time, and so give the same result. *)
Theorem sl_schedule_default_start_time_is_fixed
    {E : CronEngine} (strftime : datetime -> string -> string)
    (load_clock clock1 clock2 : datetime) (cron : string) (format : option string) :
  let m := import_module load_clock in
  sl_schedule_start_time m clock1 None = cron_start_time load_clock /\
  sl_schedule_start_time m clock2 None = cron_start_time load_clock /\
  sl_schedule strftime m clock1 cron None format
  = sl_schedule strftime m clock2 cron None format.
Proof. intros m. repeat split. Qed.

(** C10.  [get_cron_frequency] parses the expression before it looks at the
    period: with a malformed expression and a period that is not day, week
    or month the call raises the engine's parse error, not the
    unsupported-period error.  And on the empty input
    [sort_crons_by_frequency] returns the empty list, the period not being
    looked at. *)
Theorem parse_precedes_period_check
    {E : CronEngine} (expr : string) (start_time clock : datetime)
    (period : string) (fuel : nat) :
  expand expr = None -> ~ valid_period period ->
  get_cron_frequency fuel expr start_time period = Raise InvalidCronExpressionError /\
  get_cron_frequency fuel expr start_time period <> Raise UnsupportedPeriodError /\
  sort_crons_by_frequency fuel clock [] period = Return [].
Proof.
  intros Hs _. unfold get_cron_frequency. rewrite (run_malformed _ _ _ _ Hs).
  split; [reflexivity|]. split; [discriminate|reflexivity].
Qed.

Lemma parse_precedes_period_check_witness :
  RefEngine.parse "61 * * * *" = None /\ ~ valid_period "hour" /\
  get_cron_frequency (E := RefEngine.engine) 1441 "61 * * * *" 17 "hour"
    = Raise InvalidCronExpressionError /\
  get_cron_frequency (E := RefEngine.engine) 1441 "61 * * * *" 17 "hour"
    <> Raise UnsupportedPeriodError /\
  sort_crons_by_frequency (E := RefEngine.engine) 1441 23 [] "hour" = Return [].
Proof.
  assert (Hp : ~ valid_period "hour") by (intros [H|[H|H]]; discriminate).
  split; [reflexivity|]. split; [exact Hp|].
  apply (parse_precedes_period_check (E := RefEngine.engine) "61 * * * *" 17 23 "hour" 1441).
  - reflexivity.
  - exact Hp.
Defined.

(* ================================================================== *)
(** * The scenarios of the spec, run on the reference engine *)

(** The bounds of [datetime] and the two late start times, as dates. *)
Example datetime_range_dates :
  RefEngine.civil_from_days (datetime_min / day_us) = (1, 1, 1) /\
  datetime_min mod day_us = 0 /\
  RefEngine.civil_from_days (datetime_max / day_us) = (9999, 12, 31) /\
  RefEngine.civil_from_days ((datetime_max + 1) / day_us) = (10000, 1, 1) /\
  (datetime_max + 1) mod day_us = 0 /\
  RefEngine.civil_from_days (late_december_5th / day_us) = (9999, 12, 5) /\
  RefEngine.civil_from_days (late_december_31st / day_us) = (9999, 12, 31).
Proof. vm_compute. repeat split. Qed.

Example scenario_every_minute :
  get_cron_frequency (E := RefEngine.engine) 1441 "* * * * *" scenario_start "day"
  = Return 1440.
Proof. vm_compute. reflexivity. Qed.

(** From a start on a whole minute the occurrence at the end time is left
    out and none falls on the start: one less. *)
Example scenario_every_minute_aligned :
  get_cron_frequency (E := RefEngine.engine) 1441 "* * * * *"
    (1762272000 * second_us) "day"
  = Return 1439.
Proof. vm_compute. reflexivity. Qed.

Example scenario_yearly :
  get_cron_frequency (E := RefEngine.engine) 1441 "0 0 1 1 *" scenario_start "day"
  = Return 0.
Proof. vm_compute. reflexivity. Qed.

Example scenario_ranking :
  sort_crons_by_frequency (E := RefEngine.engine) 1441 scenario_start
    ["0 0 * * *"; "* * * * *"; "0 * * * *"] "day"
  = Return [("* * * * *", 1440); ("0 * * * *", 24); ("0 0 * * *", 1)].
Proof. vm_compute. reflexivity. Qed.

Example scenario_year :
  get_cron_frequency_run (E := RefEngine.engine) 1441 "* * * * *" scenario_start "year"
  = (Raise UnsupportedPeriodError, []).
Proof. vm_compute. reflexivity. Qed.

Example scenario_sl_schedule :
  sl_schedule (E := RefEngine.engine) RefEngine.strftime
    (import_module scenario_start) (scenario_start + 86400 * second_us)
    "0 0 * * *" None None
  = Return "20251104T0000".
Proof. vm_compute. reflexivity. Qed.


(* ================================================================== *)
(** * [keep_ascii_only] *)

Section KeepAscii.

Local Open Scope list_scope.

Let non_ascii (c : N) : bool := negb (is_ascii c).
Let sub := re_sub_class_plus (fun c => negb (is_ascii c)) (str "_").

Lemma sub_app (a b : pystr) :
  forall in_run, sub in_run (a ++ b) = sub in_run a ++ sub (in_run_after in_run a) b.
Proof.
  induction a as [|c a IH]; intros in_run; [reflexivity|].
  unfold sub in *. simpl. destruct (is_ascii c); simpl.
  - now rewrite IH.
  - destruct in_run; rewrite IH; reflexivity.
Qed.

Lemma sub_inside_run (run b : pystr) :
  Forall (fun c => is_ascii c = false) run ->
  sub true (run ++ b) = sub true b.
Proof.
  induction 1 as [|c run Hc _ IH]; [reflexivity|].
  unfold sub in *. simpl. now rewrite Hc.
Qed.

Lemma sub_run (run : pystr) :
  run <> [] -> Forall (fun c => is_ascii c = false) run ->
  forall in_run b,
    sub in_run (run ++ b) = (if in_run then [] else str "_") ++ sub true b.
Proof.
  intros Hne Hall in_run b. destruct Hall as [|c run Hc Hall]; [congruence|].
  pose proof (sub_inside_run run b Hall) as Hin.
  unfold sub in *. cbn [app re_sub_class_plus]. rewrite Hc. cbn [negb].
  rewrite Hin. destruct in_run; reflexivity.
Qed.

Lemma sub_ascii (s : pystr) :
  forall in_run, Forall (fun c => is_ascii c = true) (sub in_run s).
Proof.
  induction s as [|c s IH]; intros in_run; [constructor|].
  unfold sub in *. simpl in *. destruct (is_ascii c) eqn:Hc; simpl.
  - constructor; [exact Hc|apply IH].
  - destruct in_run; [apply IH|]. constructor; [reflexivity|apply IH].
Qed.

Lemma sub_length (s : pystr) :
  forall in_run, (List.length (sub in_run s) <= List.length s)%nat.
Proof.
  induction s as [|c s IH]; intros in_run; [simpl; lia|].
  unfold sub in *. simpl in *. destruct (is_ascii c); simpl.
  - specialize (IH false). lia.
  - destruct in_run; simpl; specialize (IH true); lia.
Qed.

Lemma sub_identity (s : pystr) :
  Forall (fun c => is_ascii c = true) s -> forall in_run, sub in_run s = s.
Proof.
  induction 1 as [|c s Hc _ IH]; intros in_run; [reflexivity|].
  unfold sub in *. simpl in *. rewrite Hc. simpl. now rewrite IH.
Qed.

Lemma sub_content (s : pystr) :
  forall in_run,
    filter (fun c => negb (c =? ord "_")%N) (sub in_run s)
    = filter (fun c => is_ascii c && negb (c =? ord "_")%N) s.
Proof.
  induction s as [|c s IH]; intros in_run; [reflexivity|].
  unfold sub in *. simpl in *. destruct (is_ascii c); simpl.
  - now rewrite IH.
  - destruct in_run; simpl; apply IH.
Qed.

End KeepAscii.

(* ================================================================== *)
(** * [sanitize_id] *)

Ltac ord_values :=
  repeat match goal with
         | |- context [ord ?c] =>
             let v := eval vm_compute in (ord c) in change (ord c) with v
         | H : context [ord ?c] |- _ =>
             let v := eval vm_compute in (ord c) in change (ord c) with v in H
         end.

Ltac bool_to_prop :=
  repeat match goal with
         | H : _ || _ = true |- _ => apply orb_prop in H; destruct H as [H|H]
         | H : _ && _ = true |- _ => apply andb_prop in H; destruct H as [? H]
         | H : (_ <=? _)%N = true |- _ => apply N.leb_le in H
         | H : (_ =? _)%N = true |- _ => apply N.eqb_eq in H
         | H : (_ =? _)%N = false |- _ => apply N.eqb_neq in H
         end.

Lemma id_char_ascii (c : N) : id_char c = true -> is_ascii c = true.
Proof.
  unfold id_char, is_ascii. intros H. ord_values. bool_to_prop;
    apply N.leb_le; lia.
Qed.

Lemma id_char_sanitize_char (c : N) : id_char (sanitize_char c) = true.
Proof.
  unfold sanitize_char. destruct (c =? ord "$")%N; [reflexivity|].
  destruct (id_char c) eqn:Hc; [exact Hc|reflexivity].
Qed.

Lemma sanitize_char_fixed (c : N) : sanitize_char c = c <-> id_char c = true.
Proof.
  split.
  - intros H. rewrite <- H. apply id_char_sanitize_char.
  - intros H. unfold sanitize_char.
    destruct (N.eqb_spec c (ord "$")) as [->|_]; [discriminate H|].
    now rewrite H.
Qed.

Lemma substitutions_map (id : pystr) :
  re_sub_class (fun c => negb (id_char c)) (str "_")
    (replace_char (ord "$") (str "S") id)
  = map sanitize_char id.
Proof.
  unfold re_sub_class, replace_char, sanitize_char.
  induction id as [|c id IH]; [reflexivity|].
  cbn [flat_map map]. rewrite flat_map_app, IH.
  destruct (c =? ord "$")%N; [reflexivity|].
  cbn [flat_map]. destruct (id_char c); reflexivity.
Qed.

Lemma sanitize_id_map (id : pystr) : sanitize_id id = map sanitize_char id.
Proof.
  unfold sanitize_id. rewrite substitutions_map. unfold keep_ascii_only.
  apply sub_identity. apply Forall_forall. intros c Hc.
  apply in_map_iff in Hc as (c0 & <- & _).
  apply id_char_ascii, id_char_sanitize_char.
Qed.

(* ================================================================== *)
(** * [asQueryParameters] *)

Section QueryFacts.

Local Open Scope list_scope.

Variable quote : pystr -> outcome pystr.

Lemma split_at_clean (sep : N) (a : pystr) :
  ~ In sep a -> split_at sep a = [a].
Proof.
  induction a as [|c a IH]; intros H; [reflexivity|].
  simpl. destruct (N.eqb_spec c sep) as [->|_]; [exfalso; apply H; now left|].
  rewrite IH; [reflexivity|]. intros Hin. apply H. now right.
Qed.

Lemma split_at_app (sep : N) (a b : pystr) :
  ~ In sep a -> split_at sep (a ++ sep :: b) = a :: split_at sep b.
Proof.
  induction a as [|c a IH]; intros H.
  - simpl. now rewrite N.eqb_refl.
  - simpl. destruct (N.eqb_spec c sep) as [->|_]; [exfalso; apply H; now left|].
    rewrite IH; [reflexivity|]. intros Hin. apply H. now right.
Qed.

Lemma cut_at_app (sep : N) (a b : pystr) :
  ~ In sep a -> cut_at sep (a ++ sep :: b) = (a, b).
Proof.
  induction a as [|c a IH]; intros H.
  - simpl. now rewrite N.eqb_refl.
  - simpl. destruct (N.eqb_spec c sep) as [->|_]; [exfalso; apply H; now left|].
    rewrite IH; [reflexivity|]. intros Hin. apply H. now right.
Qed.

Lemma split_at_join (sep : N) (l : list pystr) :
  l <> [] -> Forall (fun x => ~ In sep x) l ->
  split_at sep (join [sep] l) = l.
Proof.
  intros Hne Hall. revert Hne.
  induction Hall as [|x l Hx Hall IH]; intros Hne; [now elim Hne|].
  destruct l as [|y l].
  - simpl. now apply split_at_clean.
  - change (join [sep] (x :: y :: l)) with (x ++ sep :: join [sep] (y :: l)).
    rewrite split_at_app by exact Hx. f_equal. apply IH. discriminate.
Qed.

Lemma join_app (sep : pystr) (l1 l2 : list pystr) :
  l1 <> [] -> l2 <> [] ->
  join sep (l1 ++ l2) = join sep l1 ++ sep ++ join sep l2.
Proof.
  intros H1 H2. induction l1 as [|x l1 IH]; [now elim H1|].
  destruct l1 as [|y l1].
  - destruct l2 as [|z l2]; [now elim H2|]. reflexivity.
  - change (join sep ((x :: y :: l1) ++ l2))
      with (x ++ sep ++ join sep ((y :: l1) ++ l2)).
    rewrite IH by discriminate.
    change (join sep (x :: y :: l1)) with (x ++ sep ++ join sep (y :: l1)).
    now rewrite <- !app_assoc.
Qed.

(** The formatted items, one per dict item and in their order. *)
Lemma quoted_items_return (d : list (pystr * pystr)) (l : list pystr) :
  quoted_items quote d = Return l ->
  Forall2 (fun kv x => exists qk qv,
             quote (fst kv) = Return qk /\ quote (snd kv) = Return qv /\
             x = qk ++ str "=" ++ qv) d l.
Proof.
  revert l. induction d as [|[k v] d IH]; intros l H.
  - injection H as <-. constructor.
  - simpl in H.
    destruct (quote k) as [qk| |] eqn:Hk; try discriminate.
    destruct (quote v) as [qv| |] eqn:Hv; try discriminate.
    destruct (quoted_items quote d) as [l'| |]; try discriminate.
    simpl in H. injection H as <-.
    constructor; [|apply IH; reflexivity].
    exists qk, qv. auto.
Qed.

Lemma quoted_items_app (d1 d2 : list (pystr * pystr)) (l1 l2 : list pystr) :
  quoted_items quote d1 = Return l1 -> quoted_items quote d2 = Return l2 ->
  quoted_items quote (d1 ++ d2) = Return (l1 ++ l2).
Proof.
  revert l1. induction d1 as [|[k v] d1 IH]; intros l1 H1 H2.
  - injection H1 as <-. exact H2.
  - simpl in *.
    destruct (quote k) as [qk| |]; try discriminate.
    destruct (quote v) as [qv| |]; try discriminate.
    destruct (quoted_items quote d1) as [l'| |]; try discriminate.
    simpl in *. injection H1 as <-. now rewrite (IH l' eq_refl H2).
Qed.

Lemma quoted_items_quotable (d : list (pystr * pystr)) :
  (exists l, quoted_items quote d = Return l) <-> Forall (quotable quote) d.
Proof.
  induction d as [|[k v] d IH].
  - split; [constructor|]. intros _. exists []. reflexivity.
  - split.
    + intros [l H]. simpl in H.
      destruct (quote k) as [qk| |] eqn:Hk; try discriminate.
      destruct (quote v) as [qv| |] eqn:Hv; try discriminate.
      destruct (quoted_items quote d) as [l'| |]; try discriminate.
      constructor; [split; simpl; eauto|]. apply IH. eauto.
    + intros H. inversion H as [|? ? [[qk Hk] [qv Hv]] Hd]; subst.
      apply IH in Hd as [l Hl]. simpl in *. rewrite Hk, Hv, Hl. simpl. eauto.
Qed.

Lemma quoted_items_length (d : list (pystr * pystr)) (l : list pystr) :
  quoted_items quote d = Return l -> List.length l = List.length d.
Proof.
  intros H. symmetry. exact (Forall2_length (quoted_items_return _ _ H)).
Qed.

Lemma asQueryParameters_nonempty (kv : pystr * pystr) (d : list (pystr * pystr)) :
  asQueryParameters quote (Some (kv :: d))
  = (l <- quoted_items quote (kv :: d) ;; Return (str "?" ++ join (str "&") l)).
Proof. reflexivity. Qed.

End QueryFacts.

(** The reference [quote] writes neither [&] nor [=]. *)
Module RefQuoteFacts.
Import RefQuote.

Lemma hex_digit_plain (n : N) :
  hex_digit n <> ord "&" /\ hex_digit n <> ord "=".
Proof.
  unfold hex_digit. ord_values.
  destruct (N.ltb_spec n 10); lia.
Qed.

Lemma quote_byte_plain (b c : N) :
  In c (quote_byte b) -> c <> ord "&" /\ c <> ord "=".
Proof.
  unfold quote_byte. destruct (unreserved b) eqn:Hb.
  - intros [<-|[]].
    split; intros ->; vm_compute in Hb; discriminate.
  - intros [<-|[<-|[<-|[]]]]; try apply hex_digit_plain.
    split; discriminate.
Qed.

Lemma quote_plain (s q : pystr) :
  quote s = Return q -> ~ In (ord "&") q /\ ~ In (ord "=") q.
Proof.
  revert q. induction s as [|c s IH]; intros q H.
  - injection H as <-. split; intros [].
  - simpl in H. destruct (utf8 c) as [bytes|]; [|discriminate].
    destruct (quote s) as [q'| |]; try discriminate. simpl in H. injection H as <-.
    destruct (IH q' eq_refl) as [Ha He].
    split; intros Hin; apply in_app_or in Hin as [Hin|Hin]; try tauto;
      apply in_flat_map in Hin as (b & _ & Hb);
      destruct (quote_byte_plain b _ Hb); congruence.
Qed.

End RefQuoteFacts.

(* ================================================================== *)
(** * More on the counting loop *)

Section LoopShape.

Context {E : CronEngine}.

(** A run that raises made its calls up to the first one the engine
    failed, each earlier one counted. *)
Lemma count_loop_raise (fuel : nat) :
  forall (s : schedule) (c e f : Z) (x : exn) (calls : list (option datetime)),
    count_loop fuel {| expanded := s; cur := c |} e f = (Raise x, calls) ->
    x = CroniterBadDateError /\
    exists occs,
      calls = (map Some occs ++ [None])%list /\
      Forall (fun u => u < e) occs /\
      next_occurrence s (List.last occs c) = None.
Proof.
  induction fuel as [|fuel IH]; intros s c e f x calls H; [discriminate|].
  rewrite count_loop_S in H.
  destruct (next_occurrence s c) as [u|] eqn:Hnx.
  - rewrite (get_next_some _ _ _ Hnx) in H.
    destruct (u <? e) eqn:Hlt; [|discriminate].
    destruct (count_loop fuel {| expanded := s; cur := u |} e (f + 1))
      as [r calls'] eqn:Hrun.
    injection H as -> <-.
    destruct (IH _ _ _ _ _ _ Hrun) as (Hx & occs & -> & Hall & Hlast).
    split; [exact Hx|]. exists (u :: occs). split; [reflexivity|].
    split; [constructor; [now apply Z.ltb_lt|exact Hall]|].
    destruct occs as [|z occs]; [exact Hlast|].
    change (List.last (u :: z :: occs) c) with (List.last (z :: occs) c).
    now rewrite (last_cons_default occs z c u).
  - rewrite (get_next_none _ _ Hnx) in H. injection H as <- <-.
    split; [reflexivity|]. exists []. repeat split; [constructor|exact Hnx].
Qed.

Context {L : EngineLaws E}.

(** A run that returns counted one call for each unit of the result and made
    one more; the counted occurrences are no more than the whole minutes
    between the cursor and the end. *)
Lemma count_loop_return (fuel : nat) :
  forall (s : schedule) (c e f n : Z) (calls : list (option datetime)),
    count_loop fuel {| expanded := s; cur := c |} e f = (Return n, calls) ->
    exists occs stop,
      calls = map Some (occs ++ [stop]) /\
      n = f + Z.of_nat (List.length occs) /\
      Forall (fun u => c < u < e) occs /\ e <= stop /\
      Z.of_nat (List.length occs) <= Z.max 0 (minutes_between c e).
Proof.
  induction fuel as [|fuel IH]; intros s c e f n calls H; [discriminate|].
  rewrite count_loop_S in H.
  destruct (next_occurrence s c) as [u|] eqn:Hnx.
  - rewrite (get_next_some _ _ _ Hnx) in H.
    pose proof (next_later _ _ _ Hnx) as Hcu.
    destruct (u <? e) eqn:Hlt.
    + apply Z.ltb_lt in Hlt.
      pose proof (aligned_step c u e (next_aligned _ _ _ Hnx) Hcu Hlt) as Hst.
      destruct (count_loop fuel {| expanded := s; cur := u |} e (f + 1))
        as [r calls'] eqn:Hrun.
      injection H as -> <-.
      destruct (IH _ _ _ _ _ _ Hrun) as (occs & stop & -> & -> & Hall & Hstop & Hlen).
      exists (u :: occs), stop. split; [reflexivity|].
      split; [simpl List.length; lia|].
      split; [|split; [exact Hstop|simpl List.length; lia]].
      constructor; [lia|]. rewrite Forall_forall in *.
      intros v Hv. specialize (Hall v Hv). lia.
    + apply Z.ltb_ge in Hlt. injection H as <- <-.
      exists [], u. split; [reflexivity|]. split; [simpl; lia|].
      split; [constructor|]. split; [exact Hlt|simpl; lia].
  - rewrite (get_next_none _ _ Hnx) in H. discriminate.
Qed.

End LoopShape.

(* ================================================================== *)
(** * More on the reference engine *)

Module RefEngineMore.
Import RefEngine.

Lemma last_upto_none (P : Z -> bool) (k : nat) :
  forall m, last_upto P k m = None ->
    forall y, m - 2 ^ Z.of_nat k < y <= m -> P y = false.
Proof.
  induction k as [|k IH]; intros m H y Hy.
  - change (2 ^ Z.of_nat 0) with 1 in Hy. simpl in H.
    assert (y = m) by lia. subst y. now destruct (P m).
  - rewrite Nat2Z.inj_succ, Z.pow_succ_r in Hy by lia.
    cbn [last_upto] in H.
    destruct (last_upto P k m) eqn:H1; [discriminate|].
    destruct (Z_lt_le_dec (m - 2 ^ Z.of_nat k) y).
    + apply (IH m H1). lia.
    + apply (IH _ H). lia.
Qed.

Lemma last_upto_some (P : Z -> bool) (k : nat) :
  forall m x, last_upto P k m = Some x ->
    m - 2 ^ Z.of_nat k < x <= m /\ P x = true /\
    forall y, x < y <= m -> P y = false.
Proof.
  induction k as [|k IH]; intros m x H.
  - simpl in H. destruct (P m) eqn:HP; [|discriminate]. injection H as <-.
    change (2 ^ Z.of_nat 0) with 1. repeat split; try lia. exact HP.
  - assert (Hp : 2 ^ Z.of_nat (S k) = 2 ^ Z.of_nat k + 2 ^ Z.of_nat k).
    { rewrite Nat2Z.inj_succ, Z.pow_succ_r by lia. lia. }
    assert (0 < 2 ^ Z.of_nat k) by (apply Z.pow_pos_nonneg; lia).
    cbn [last_upto] in H.
    destruct (last_upto P k m) as [x1|] eqn:H1.
    + injection H as <-. destruct (IH _ _ H1) as (Hr & HP & Hl).
      repeat split; try lia; assumption.
    + destruct (IH _ _ H) as (Hr & HP & Hl).
      split; [lia|]. split; [exact HP|]. intros y Hy.
      destruct (Z_lt_le_dec (m - 2 ^ Z.of_nat k) y) as [Hhi|Hlo]; [|apply Hl; lia].
      apply (last_upto_none _ _ _ H1). lia.
Qed.

#[export] Instance prev_laws : PrevLaws engine.
Proof.
  split; simpl; unfold prev; intros s t u H;
    destruct (last_upto (fires_minute s) horizon ((t - 1) / minute_us)) as [x|] eqn:Hx;
    try discriminate; simpl in H; injection H as <-;
    destruct (last_upto_some _ _ _ _ Hx) as (Hr & HP & Hl);
    pose proof (RefEngineFacts.minute_floor (t - 1)) as Ht;
    pose proof minute_us_pos as HM.
  - nia.
  - unfold fires_at. rewrite Z.mod_mul, Z.div_mul by lia. exact HP.
  - intros v Hv. unfold fires_at.
    destruct (Z.eqb_spec (v mod minute_us) 0) as [Hal|]; [|reflexivity].
    simpl. apply Hl.
    assert (v = minute_us * (v / minute_us)).
    { rewrite (Z.div_mod v minute_us) at 1 by lia. lia. }
    split.
    + nia.
    + apply Z.div_le_mono; lia.
Qed.

Lemma first_from_never (P : Z -> bool) (k : nat) :
  (forall x, P x = false) -> forall m, first_from P k m = None.
Proof.
  intros H. induction k as [|k IH]; intros m; simpl.
  - now rewrite H.
  - now rewrite !IH.
Qed.

(** February has at most 29 days. *)
Lemma february_days (dn y d : Z) :
  civil_from_days dn = (y, 2, d) -> d <= 29.
Proof.
  unfold civil_from_days.
  pose proof (Z.mod_pos_bound (dn + 719468) 146097 ltac:(reflexivity)) as Hdoe.
  set (doe := (dn + 719468) mod 146097) in *. clearbody doe.
  unfold civil_of_doe.
  set (yoe := (doe - doe / 1460 + doe / 36524 - doe / 146096) / 365).
  set (doy := doe - (365 * yoe + yoe / 4 - yoe / 100)).
  assert (Hdoy : 0 <= doy <= 365).
  { subst doy yoe. Z.div_mod_to_equations. lia. }
  clearbody doy.
  intros Heq.
  pose proof (f_equal (fun p => snd (fst p)) Heq) as Hm.
  pose proof (f_equal snd Heq) as Hd. cbn [fst snd] in Hm, Hd. clear Heq.
  destruct ((5 * doy + 2) / 153 <? 10) eqn:Hlt;
    [apply Z.ltb_lt in Hlt|apply Z.ltb_ge in Hlt];
    Z.div_mod_to_equations; lia.
Qed.

Lemma parse_february_31st : parse "0 0 31 2 *" = Some february_31st.
Proof. reflexivity. Qed.

Lemma february_31st_never (m : Z) : fires_minute february_31st m = false.
Proof.
  unfold fires_minute, february_31st. cbn [minutes hours days months weekdays].
  destruct (field_match _ (m mod 60)); [|reflexivity].
  destruct (field_match _ ((m / 60) mod 24)); [|reflexivity].
  destruct (civil_from_days (m / 1440)) as [[y mo] d] eqn:Hc.
  destruct (field_match _ mo) eqn:Hmo; [|reflexivity].
  assert (mo = 2).
  { unfold field_match, item_match in Hmo. simpl in Hmo.
    rewrite orb_false_r in Hmo.
    apply andb_prop in Hmo as [Hmo _]. apply andb_prop in Hmo as [H1 H2].
    apply Z.leb_le in H1, H2. lia. }
  subst mo. pose proof (february_days _ _ _ Hc) as Hd.
  change (weekdays_restricted (star 0 7)) with false.
  rewrite andb_false_r.
  assert (Hf : field_match [{| first := 31; last := 31; step := 1 |}] d = false).
  { unfold field_match, item_match. simpl.
    rewrite (proj2 (Z.leb_gt 31 d)) by lia. reflexivity. }
  now rewrite Hf.
Qed.

Lemma february_31st_no_next (t : datetime) : next february_31st t = None.
Proof.
  unfold next. now rewrite (first_from_never _ _ february_31st_never).
Qed.

End RefEngineMore.

(* ================================================================== *)
(** * Further properties: the frequency analysis *)


Lemma hourly_day_run :
  get_cron_frequency (E := RefEngine.engine) 1441 "0 * * * *" 17 "day" = Return 24.
Proof. vm_compute. reflexivity. Qed.



(** February 31st on the reference engine: it parses, and the first
    [get_next] fails. *)
Lemma february_31st_raises :
  get_cron_frequency (E := RefEngine.engine) 1 "0 0 31 2 *" 17 "day"
  = Raise CroniterBadDateError.
Proof.
  assert (Hfit : window_fits 17 "day") by (split; apply Z.leb_le; reflexivity).
  unfold get_cron_frequency.
  rewrite (run_valid (E := RefEngine.engine) 1 "0 0 31 2 *" february_31st 17 "day"
             RefEngineMore.parse_february_31st (or_introl eq_refl) Hfit).
  rewrite count_loop_S.
  rewrite (get_next_none (E := RefEngine.engine) february_31st 17
             (RefEngineMore.february_31st_no_next 17)).
  reflexivity.
Qed.




(** X4.  [sort_crons_by_frequency] raises what the first failing expression
    of the input raises: when the expressions before it return, the
    exception of its own call is the exception of the whole call, whatever
    comes after it. *)
Theorem sort_first_error_wins
    {E : CronEngine} (clock : datetime) (pre post : list string) (bad : string)
    (period : string) (fuel : nat) (x : exn) :
  Forall (fun e => exists n,
            get_cron_frequency fuel e (cron_start_time clock) period = Return n) pre ->
  get_cron_frequency fuel bad (cron_start_time clock) period = Raise x ->
  sort_crons_by_frequency fuel clock (pre ++ bad :: post) period = Raise x.
Proof.
  intros Hpre Hbad. unfold sort_crons_by_frequency.
  assert (H : frequencies fuel (cron_start_time clock) period (pre ++ bad :: post)
              = Raise x); [|now rewrite H].
  induction Hpre as [|e pre [n He] _ IH]; simpl.
  - now rewrite Hbad.
  - now rewrite He, IH.
Qed.

Lemma sort_first_error_wins_witness :
  Forall (fun e => exists n,
            get_cron_frequency (E := RefEngine.engine) 1441 e (cron_start_time 17) "day"
            = Return n) ["0 * * * *"] /\
  get_cron_frequency (E := RefEngine.engine) 1441 "61 * * * *" (cron_start_time 17) "day"
    = Raise CroniterBadCronError /\
  sort_crons_by_frequency (E := RefEngine.engine) 1441 17
    (["0 * * * *"] ++ "61 * * * *" :: ["0 0 31 2 *"])%list "day"
  = Raise CroniterBadCronError.
Proof.
  assert (H1 : Forall (fun e => exists n,
            get_cron_frequency (E := RefEngine.engine) 1441 e (cron_start_time 17) "day"
            = Return n) ["0 * * * *"]).
  { constructor; [|constructor]. exists 24. exact hourly_day_run. }
  split; [exact H1|]. split; [reflexivity|].
  exact (sort_first_error_wins (E := RefEngine.engine) 17 ["0 * * * *"] ["0 0 31 2 *"]
           "61 * * * *" "day" 1441 CroniterBadCronError H1 eq_refl).
Defined.

(** X5.  When [sl_schedule] returns, its result is the formatted latest
    occurrence strictly before the start time it works with: an occurrence
    earlier than the start time, with no occurrence between the two; a start
    time that is itself an occurrence is not the one returned. *)
Theorem sl_schedule_previous_occurrence
    {E : CronEngine} {P : PrevLaws E}
    (strftime : datetime -> string -> string) (m : module_state)
    (clock : datetime) (cron : string) (start_time : option datetime)
    (format : option string) (r : string) :
  sl_schedule strftime m clock cron start_time format = Return r ->
  let t := sl_schedule_start_time m clock start_time in
  exists s u,
    expand cron = Some s /\ u < t /\ fires s u = true /\
    (forall v, u < v < t -> fires s v = false) /\
    r = strftime u (match format with Some f => f | None => sl_schedule_format end).
Proof.
  intros H t. unfold sl_schedule, croniter_new, get_prev in H. fold t in H.
  destruct (expand cron) as [s|]; [|discriminate]. simpl in H.
  destruct (prev_occurrence s t) as [u|] eqn:Hu; [|discriminate].
  simpl in H. injection H as <-. exists s, u.
  split; [reflexivity|]. split; [exact (prev_earlier _ _ _ Hu)|].
  split; [exact (prev_fires _ _ _ Hu)|]. split; [exact (prev_greatest _ _ _ Hu)|].
  reflexivity.
Qed.

Lemma sl_schedule_previous_occurrence_witness :
  sl_schedule (E := RefEngine.engine) RefEngine.strftime
    (import_module scenario_start) (scenario_start + 86400 * second_us)
    "0 0 * * *" None None = Return "20251104T0000" /\
  let t := sl_schedule_start_time (import_module scenario_start)
             (scenario_start + 86400 * second_us) None in
  exists s u,
    RefEngine.parse "0 0 * * *" = Some s /\ u < t /\ RefEngine.fires_at s u = true /\
    (forall v, u < v < t -> RefEngine.fires_at s v = false) /\
    "20251104T0000" = RefEngine.strftime u sl_schedule_format.
Proof.
  split; [exact scenario_sl_schedule|].
  exact (sl_schedule_previous_occurrence (E := RefEngine.engine)
           (P := RefEngineMore.prev_laws) RefEngine.strftime
           (import_module scenario_start) (scenario_start + 86400 * second_us)
           "0 0 * * *" None None "20251104T0000" scenario_sl_schedule).
Defined.

(* ================================================================== *)
(** * Further properties: the text helpers *)

(** X6.  The result of [keep_ascii_only] has only ASCII characters, is no
    longer than the input, and apart from underscores consists of exactly
    the ASCII characters of the input other than underscores, in their
    order. *)
Theorem keep_ascii_only_result (text : pystr) :
  Forall (fun c => is_ascii c = true) (keep_ascii_only text) /\
  (List.length (keep_ascii_only text) <= List.length text)%nat /\
  filter (fun c => negb (c =? ord "_")%N) (keep_ascii_only text)
  = filter (fun c => is_ascii c && negb (c =? ord "_")%N) text.
Proof.
  unfold keep_ascii_only. split; [apply sub_ascii|].
  split; [apply sub_length|apply sub_content].
Qed.

(** X7.  [keep_ascii_only] leaves a string unchanged exactly when it has
    only ASCII characters; so applying it twice is applying it once. *)
Theorem keep_ascii_only_fixed_points (text : pystr) :
  (keep_ascii_only text = text <-> Forall (fun c => is_ascii c = true) text) /\
  keep_ascii_only (keep_ascii_only text) = keep_ascii_only text.
Proof.
  unfold keep_ascii_only. split; [split|].
  - intros H. rewrite <- H. apply sub_ascii.
  - intros H. now apply sub_identity.
  - apply sub_identity, sub_ascii.
Qed.

(** X8.  The length of a run of non-ASCII characters does not matter: in any
    context a non-empty run gives what a single non-ASCII character gives,
    and on its own it gives one underscore. *)
Theorem keep_ascii_only_collapses_runs (a run b : pystr) (c : N) :
  run <> [] -> Forall (fun x => is_ascii x = false) run -> is_ascii c = false ->
  keep_ascii_only (a ++ run ++ b)%list = keep_ascii_only (a ++ [c] ++ b)%list /\
  keep_ascii_only run = str "_".
Proof.
  intros Hne Hall Hc. unfold keep_ascii_only. split.
  - rewrite (sub_app a (run ++ b)%list), (sub_app a ([c] ++ b)%list).
    rewrite (sub_run run Hne Hall), (sub_run [c] ltac:(discriminate)); [reflexivity|].
    constructor; [exact Hc|constructor].
  - rewrite <- (app_nil_r run). now rewrite (sub_run run Hne Hall).
Qed.

Lemma keep_ascii_only_collapses_runs_witness :
  [233; 8364; 128512]%N <> [] /\
  Forall (fun x => is_ascii x = false) [233; 8364; 128512]%N /\
  is_ascii 955 = false /\
  keep_ascii_only (str "caf" ++ [233; 8364; 128512]%N ++ str "s")%list
    = keep_ascii_only (str "caf" ++ [955%N] ++ str "s")%list /\
  keep_ascii_only [233; 8364; 128512]%N = str "_".
Proof.
  assert (H : Forall (fun x => is_ascii x = false) [233; 8364; 128512]%N)
    by (repeat constructor).
  split; [discriminate|]. split; [exact H|]. split; [reflexivity|].
  exact (keep_ascii_only_collapses_runs (str "caf") [233; 8364; 128512]%N (str "s")
           955%N ltac:(discriminate) H eq_refl).
Defined.

(** X9.  An ASCII character stays where it is and separates the work: the
    result for a string around it is the result for what is before it, the
    character, and the result for what is after it. *)
Theorem keep_ascii_only_splits_at_ascii (a b : pystr) (c : N) :
  is_ascii c = true ->
  keep_ascii_only (a ++ c :: b)%list
  = (keep_ascii_only a ++ c :: keep_ascii_only b)%list.
Proof.
  intros Hc. unfold keep_ascii_only. rewrite sub_app. f_equal.
  simpl. now rewrite Hc.
Qed.

Lemma keep_ascii_only_splits_at_ascii_witness :
  is_ascii (ord "-") = true /\
  keep_ascii_only ([233; 233]%N ++ ord "-" :: [8364%N])%list
  = (keep_ascii_only [233; 233]%N ++ ord "-" :: keep_ascii_only [8364%N])%list.
Proof.
  split; [reflexivity|].
  exact (keep_ascii_only_splits_at_ascii [233; 233]%N [8364%N] (ord "-") eq_refl).
Defined.

(** X10.  [sanitize_id] works character by character: the result has the
    length of the input, consists of letters, digits, hyphens and
    underscores only, and at each position has [S] for a dollar sign, the
    input character where it is a letter, digit, hyphen or underscore, and
    an underscore otherwise. *)
Theorem sanitize_id_characterwise (id : pystr) :
  List.length (sanitize_id id) = List.length id /\
  Forall (fun c => id_char c = true) (sanitize_id id) /\
  forall i, nth_error (sanitize_id id) i = option_map sanitize_char (nth_error id i).
Proof.
  rewrite sanitize_id_map. split; [apply length_map|]. split.
  - apply Forall_forall. intros c Hc. apply in_map_iff in Hc as (c0 & <- & _).
    apply id_char_sanitize_char.
  - intros i. apply nth_error_map.
Qed.

(** X11.  The last step of [sanitize_id] changes nothing: what the two
    substitutions leave is already ASCII, so [keep_ascii_only] returns it as
    it is. *)
Theorem sanitize_id_keep_ascii_only_is_identity (id : pystr) :
  let substituted :=
    re_sub_class (fun c => negb (id_char c)) (str "_")
      (replace_char (ord "$") (str "S") id) in
  keep_ascii_only substituted = substituted /\ sanitize_id id = substituted.
Proof.
  intros substituted.
  assert (H : keep_ascii_only substituted = substituted); [|split; [exact H|exact H]].
  unfold substituted. rewrite substitutions_map. unfold keep_ascii_only.
  apply sub_identity. apply Forall_forall. intros c Hc.
  apply in_map_iff in Hc as (c0 & <- & _).
  apply id_char_ascii, id_char_sanitize_char.
Qed.

(** X12.  [sanitize_id] returns its input exactly when the input consists
    of letters, digits, hyphens and underscores; a sanitized id is
    sanitized to itself. *)
Theorem sanitize_id_fixed_points (id : pystr) :
  (sanitize_id id = id <-> Forall (fun c => id_char c = true) id) /\
  sanitize_id (sanitize_id id) = sanitize_id id.
Proof.
  assert (Hfix : forall l, Forall (fun c => id_char c = true) l -> sanitize_id l = l).
  { intros l Hl. rewrite sanitize_id_map.
    induction Hl as [|c l Hc _ IH]; [reflexivity|].
    simpl. now rewrite IH, (proj2 (sanitize_char_fixed c) Hc). }
  split; [split|].
  - intros H. rewrite <- H. apply sanitize_id_characterwise.
  - apply Hfix.
  - apply Hfix, sanitize_id_characterwise.
Qed.

(** X13.  [sanitize_id] of a concatenation is the concatenation of the
    sanitized parts. *)
Theorem sanitize_id_app (a b : pystr) :
  sanitize_id (a ++ b)%list = (sanitize_id a ++ sanitize_id b)%list.
Proof. rewrite !sanitize_id_map. apply map_app. Qed.

(* ================================================================== *)
(** * Further properties: the query string *)

(** X14.  A result of [asQueryParameters] is empty exactly when the
    argument is omitted or is the empty dict; any other result starts with a
    question mark and has an equals sign after it. *)
Theorem asQueryParameters_empty_or_marked
    (quote : pystr -> outcome pystr)
    (parameters : option (list (pystr * pystr))) (s : pystr) :
  asQueryParameters quote parameters = Return s ->
  (s = [] <-> (parameters = None \/ parameters = Some [])) /\
  (s <> [] -> exists rest, s = ord "?" :: rest /\ In (ord "=") rest).
Proof.
  intros H. destruct parameters as [[|[k v] d]|].
  - injection H as <-. split; [tauto|congruence].
  - rewrite asQueryParameters_nonempty in H. simpl in H.
    destruct (quote k) as [qk| |]; try discriminate.
    destruct (quote v) as [qv| |]; try discriminate.
    destruct (quoted_items quote d) as [l| |]; try discriminate.
    simpl in H. injection H as <-. split.
    + split; [discriminate|]. intros [Hn|Hn]; discriminate.
    + intros _. eexists. split; [reflexivity|].
      destruct l; [|apply in_or_app; left];
        apply in_or_app; right; now left.
  - injection H as <-. split; [tauto|congruence].
Qed.

Lemma asQueryParameters_empty_or_marked_witness :
  asQueryParameters RefQuote.quote (Some [(str "a b", str "c&d")])
    = Return (str "?a%20b=c%26d") /\
  (str "?a%20b=c%26d" = [] <->
     (Some [(str "a b", str "c&d")] = None \/ Some [(str "a b", str "c&d")] = Some [])) /\
  (str "?a%20b=c%26d" <> [] ->
     exists rest, str "?a%20b=c%26d" = ord "?" :: rest /\ In (ord "=") rest).
Proof.
  split; [reflexivity|].
  exact (asQueryParameters_empty_or_marked RefQuote.quote
           (Some [(str "a b", str "c&d")]) (str "?a%20b=c%26d") eq_refl).
Defined.

(** X15.  [asQueryParameters] returns exactly when [quote] returns on every
    key and every value of the dict; an omitted argument always returns. *)
Theorem asQueryParameters_returns_iff_quotable
    (quote : pystr -> outcome pystr)
    (parameters : option (list (pystr * pystr))) :
  (exists s, asQueryParameters quote parameters = Return s)
  <-> Forall (quotable quote) (match parameters with None => [] | Some d => d end).
Proof.
  destruct parameters as [[|kv d]|].
  - split; [constructor|]. intros _. exists []. reflexivity.
  - rewrite asQueryParameters_nonempty, <- quoted_items_quotable. split.
    + intros [s H]. destruct (quoted_items quote (kv :: d)) as [l| |];
        try discriminate. eauto.
    + intros [l H]. rewrite H. simpl. eauto.
  - split; [constructor|]. intros _. exists []. reflexivity.
Qed.

(** X16.  The query string of two dicts put one after the other, neither of
    them empty, is the query string of the first, an ampersand, and the
    query string of the second without its question mark. *)
Theorem asQueryParameters_app
    (quote : pystr -> outcome pystr)
    (d1 d2 : list (pystr * pystr)) (s1 s2 : pystr) :
  d1 <> [] -> d2 <> [] ->
  asQueryParameters quote (Some d1) = Return s1 ->
  asQueryParameters quote (Some d2) = Return s2 ->
  asQueryParameters quote (Some (d1 ++ d2)%list)
  = Return (s1 ++ str "&" ++ List.tl s2)%list.
Proof.
  intros Hd1 Hd2 H1 H2.
  destruct d1 as [|kv1 d1]; [now elim Hd1|].
  destruct d2 as [|kv2 d2]; [now elim Hd2|].
  change ((kv1 :: d1) ++ kv2 :: d2)%list with (kv1 :: (d1 ++ kv2 :: d2))%list.
  rewrite asQueryParameters_nonempty in *.
  change (kv1 :: (d1 ++ kv2 :: d2))%list with ((kv1 :: d1) ++ kv2 :: d2)%list.
  destruct (quoted_items quote (kv1 :: d1)) as [l1| |] eqn:Hl1; try discriminate.
  destruct (quoted_items quote (kv2 :: d2)) as [l2| |] eqn:Hl2; try discriminate.
  simpl in H1, H2. injection H1 as <-. injection H2 as <-.
  rewrite (quoted_items_app quote _ _ _ _ Hl1 Hl2). simpl bind.
  assert (l1 <> []).
  { intros ->. apply quoted_items_length in Hl1. discriminate. }
  assert (l2 <> []).
  { intros ->. apply quoted_items_length in Hl2. discriminate. }
  rewrite join_app by assumption. reflexivity.
Qed.

Lemma asQueryParameters_app_witness :
  [(str "a", str "1")] <> [] /\ [(str "b", str "x y")] <> [] /\
  asQueryParameters RefQuote.quote (Some [(str "a", str "1")]) = Return (str "?a=1") /\
  asQueryParameters RefQuote.quote (Some [(str "b", str "x y")])
    = Return (str "?b=x%20y") /\
  asQueryParameters RefQuote.quote
    (Some ([(str "a", str "1")] ++ [(str "b", str "x y")])%list)
  = Return (str "?a=1" ++ str "&" ++ List.tl (str "?b=x%20y"))%list.
Proof.
  split; [discriminate|]. split; [discriminate|].
  split; [reflexivity|]. split; [reflexivity|].
  exact (asQueryParameters_app RefQuote.quote [(str "a", str "1")] [(str "b", str "x y")]
           (str "?a=1") (str "?b=x%20y")
           ltac:(discriminate) ltac:(discriminate) eq_refl eq_refl).
Defined.

(** X17.  When [quote] writes neither ampersand nor equals sign, as the
    URL-encoding helper does, the query string can be read back: cutting it
    at the ampersands and each piece at its first equals sign gives the
    quoted key and the quoted value of every item of the dict, in order. *)
Theorem asQueryParameters_read_back
    (quote : pystr -> outcome pystr)
    (parameters : option (list (pystr * pystr))) (s : pystr) :
  (forall t q, quote t = Return q -> ~ In (ord "&") q /\ ~ In (ord "=") q) ->
  asQueryParameters quote parameters = Return s ->
  Forall2 (fun kv q => quote (fst kv) = Return (fst q) /\ quote (snd kv) = Return (snd q))
          (match parameters with None => [] | Some d => d end)
          (read_query s).
Proof.
  intros Hq H. destruct parameters as [[|kv d]|];
    [injection H as <-; constructor| |injection H as <-; constructor].
  rewrite asQueryParameters_nonempty in H.
  destruct (quoted_items quote (kv :: d)) as [l| |] eqn:Hl; try discriminate.
  cbn [bind] in H. injection H as <-.
  pose proof (quoted_items_return quote _ _ Hl) as Hitems.
  assert (Hne : l <> []).
  { intros ->. apply quoted_items_length in Hl. discriminate. }
  assert (Hclean : Forall (fun x => ~ In (ord "&") x) l).
  { clear Hne Hl. induction Hitems as [|? ? ? ? (qk & qv & Hk & Hv & ->) _ IH];
      constructor; [|exact IH].
    intros Hin. destruct (Hq _ _ Hk) as [Hk1 _]. destruct (Hq _ _ Hv) as [Hv1 _].
    apply in_app_or in Hin as [Hin|[Hin|Hin]]; [tauto|discriminate Hin|tauto]. }
  assert (Hread : forall s', s' = (str "?" ++ join (str "&") l)%list ->
                    read_query s' = map (cut_at (ord "=")) l).
  { intros s' ->.
    exact (f_equal (map (cut_at (ord "="))) (split_at_join (ord "&") l Hne Hclean)). }
  erewrite Hread by reflexivity.
  clear Hne Hclean Hl Hread. induction Hitems as [|? ? ? ? (qk & qv & Hk & Hv & ->) _ IH];
    simpl; constructor; [|exact IH].
  change (qk ++ str "=" ++ qv)%list with (qk ++ ord "=" :: qv)%list.
  rewrite cut_at_app by (apply (Hq _ _ Hk)). auto.
Qed.

Lemma asQueryParameters_read_back_witness :
  (forall t q, RefQuote.quote t = Return q -> ~ In (ord "&") q /\ ~ In (ord "=") q) /\
  asQueryParameters RefQuote.quote (Some [(str "a=b", str "c&d"); (str "k", [233%N])])
    = Return (str "?a%3Db=c%26d&k=%C3%A9") /\
  Forall2 (fun kv q => RefQuote.quote (fst kv) = Return (fst q) /\
                       RefQuote.quote (snd kv) = Return (snd q))
          [(str "a=b", str "c&d"); (str "k", [233%N])]
          (read_query (str "?a%3Db=c%26d&k=%C3%A9")).
Proof.
  split; [exact RefQuoteFacts.quote_plain|]. split; [reflexivity|].
  exact (asQueryParameters_read_back RefQuote.quote
           (Some [(str "a=b", str "c&d"); (str "k", [233%N])])
           (str "?a%3Db=c%26d&k=%C3%A9") RefQuoteFacts.quote_plain eq_refl).
Defined.
